(** * practice-chords: the procedural audio engine ([chord_trainer/audio.py])

    A shallow embedding of the audio module: the frequency model
    ([get_note_freq]), the Karplus-Strong synthesizer ([generate_pluck]),
    the chord mixer ([play_chord]), the click generator ([play_click]) and
    the [Metronome] class.

    Modelling conventions.
    - Python [float]s and NumPy [float32] samples are idealised as real
      numbers ([R]); [int(x)] on a float is truncation toward zero.
    - Python [int]s are [Z]; list lengths and loop counters are [nat] once
      the code has established that they are not negative.
    - A Python call either returns or raises: [outcome].
    - [np.random.uniform] is an explicit noise source, a function from the
      sample index to the drawn value.
    - [sd.play] is the playback sink: a call is recorded as a [Submission];
      a function that plays returns the submissions it issued. *)

From Stdlib Require Import String.
From Stdlib Require Import Reals Zfloor Lra Lia ZArith List Bool.
Import ListNotations.

Open Scope R_scope.

(** ** Python outcomes *)

Inductive exn : Type :=
| KeyError
| ZeroDivisionError
| ValueError
| TypeError.

Inductive outcome (A : Type) : Type :=
| Returned (a : A)
| Raised (e : exn).

Arguments Returned {A} a.
Arguments Raised {A} e.

Definition bind {A B : Type} (m : outcome A) (k : A -> outcome B) : outcome B :=
  match m with
  | Returned a => k a
  | Raised e => Raised e
  end.

Notation "x <- m ;; k" := (bind m (fun x => k))
  (at level 61, m at next level, right associativity).

(** [for x in xs: body], threading the loop-carried state and stopping at
    the first exception. *)
Fixpoint for_each {S A : Type} (xs : list A) (body : A -> S -> outcome S)
    (s : S) : outcome S :=
  match xs with
  | [] => Returned s
  | x :: rest => s' <- body x s ;; for_each rest body s'
  end.

(** ** Python and NumPy primitives *)

Module Py.

(** [int(x)] for a float [x]: truncation toward zero. *)
Definition int (x : R) : Z :=
  if Rle_dec 0 x then Zfloor x else Zceil x.

(** [x / y] on floats: division by zero raises. *)
Definition truediv (x y : R) : outcome R :=
  if Req_dec_T y 0 then Raised ZeroDivisionError else Returned (x / y).

(** [enumerate(xs)] *)
Definition enumerate {A : Type} (xs : list A) : list (nat * A) :=
  combine (seq 0 (length xs)) xs.

(** [l[i] = v] for an index the caller keeps in range. *)
Fixpoint setitem {A : Type} (l : list A) (i : nat) (v : A) : list A :=
  match l, i with
  | [], _ => []
  | _ :: t, O => v :: t
  | h :: t, S j => h :: setitem t j v
  end.


End Py.

Module Np.

(** [np.zeros(n)]: a negative dimension is refused. *)
Definition zeros (n : Z) : outcome (list R) :=
  if (n <? 0)%Z then Raised ValueError
  else Returned (repeat 0 (Z.to_nat n)).

(** [np.random.uniform(-1, 1, n)] drawn from the noise source. *)
Definition random_uniform (noise : nat -> R) (n : Z) : outcome (list R) :=
  if (n <? 0)%Z then Raised ValueError
  else Returned (map noise (seq 0 (Z.to_nat n))).

(** [np.linspace(start, stop, num)] for [num >= 0]. *)
Definition linspace (start stop : R) (num : nat) : list R :=
  match num with
  | 1%nat => [start]
  | _ => map (fun i => start + INR i * ((stop - start) / INR (num - 1)))
             (seq 0 num)
  end.

(** [np.max(a)]: the empty array is refused. *)
Definition max (a : list R) : outcome R :=
  match a with
  | [] => Raised ValueError
  | x :: rest => Returned (fold_left Rmax rest x)
  end.

(** Element-wise product of two arrays of the same length. *)
Fixpoint multiply (a b : list R) : list R :=
  match a, b with
  | x :: a', y :: b' => x * y :: multiply a' b'
  | _, _ => []
  end.

(** [mixed[:len(s)] += s] for [len(s) <= len(mixed)]. *)
Fixpoint add_prefix (mixed s : list R) : list R :=
  match mixed, s with
  | x :: mixed', y :: s' => x + y :: add_prefix mixed' s'
  | _, _ => mixed
  end.

End Np.

(** ** FrequencyModel *)

(** String identities are Python strings; [STRING_FREQS] is a dict. *)
Definition STRING_FREQS : list (string * R) :=
  [ ("E"%string, 82.41);
    ("A"%string, 110.00);
    ("D"%string, 146.83);
    ("G"%string, 196.00);
    ("B"%string, 246.94);
    ("e"%string, 329.63) ].

Fixpoint dict_get {V : Type} (d : list (string * V)) (k : string) : outcome V :=
  match d with
  | [] => Raised KeyError
  | (k', v) :: rest => if String.eqb k k' then Returned v else dict_get rest k
  end.

(** [FRET_RATIO = 2 ** (1/12)] *)
Definition FRET_RATIO : R := Rpower 2 (1 / 12).

Definition get_note_freq (string : String.string) (fret : Z) : outcome R :=
  base_freq <- dict_get STRING_FREQS string ;;
  Returned (base_freq * powerRZ FRET_RATIO fret).

(** ** StringSynthesizer *)

(** One iteration of the Karplus-Strong loop, on the loop-carried pair
    (delay line, output array). [i % period] raises when [period] is 0. *)
Definition karplus_strong_step (period : nat) (i : nat)
    (st : list R * list R) : outcome (list R * list R) :=
  let '(buffer, output) := st in
  match period with
  | O => Raised ZeroDivisionError
  | _ =>
      let j := (i mod period)%nat in
      let j1 := ((i + 1) mod period)%nat in
      let output' := Py.setitem output i (nth j buffer 0) in
      let buffer' :=
        Py.setitem buffer j
          (0.996 * 0.5 * (nth j buffer 0 + nth j1 buffer 0)) in
      Returned (buffer', output')
  end.

(** [generate_pluck(freq, duration, sample_rate)], with the module flag
    [AUDIO_AVAILABLE] and the noise source as explicit arguments. The
    Python function returns [None] when the flag is off. *)
Definition generate_pluck (AUDIO_AVAILABLE : bool) (noise : nat -> R)
    (freq duration : R) (sample_rate : Z) : outcome (option (list R)) :=
  if negb AUDIO_AVAILABLE then Returned None
  else
    let n_samples := Py.int (duration * IZR sample_rate) in
    q <- Py.truediv (IZR sample_rate) freq ;;
    let period := Py.int q in
    buffer <- Np.random_uniform noise period ;;
    output <- Np.zeros n_samples ;;
    st <- for_each (seq 0 (Z.to_nat n_samples))
            (karplus_strong_step (Z.to_nat period)) (buffer, output) ;;
    let envelope :=
      map (fun t => exp (-3 * t)) (Np.linspace 0 1 (Z.to_nat n_samples)) in
    Returned (Some (Np.multiply (snd st) envelope)).

(** ** ChordMixer *)

(** A call [sd.play(buffer, sample_rate)]. *)
Definition Submission : Type := (list R * Z)%type.

Definition strings : list string :=
  [ "E"%string; "A"%string; "D"%string; "G"%string; "B"%string; "e"%string ].

(** The locals [sample_rate = 44100] and [duration = 2.0] of [play_chord]
    ([play_click] has the same [sample_rate]). *)
Definition sample_rate : Z := 44100.
Definition duration : R := 2.0.

(** [padded[start:] = wave] on one-dimensional arrays: the slice must have
    the length of [wave], unless [wave] has one element, which is then
    broadcast. *)
Definition assign_from (padded : list R) (start : Z) (wave : list R)
    : outcome (list R) :=
  let len := Z.of_nat (length padded) in
  let start' :=
    if (start <? 0)%Z then Z.max 0 (len + start) else Z.min start len in
  let slice_len := Z.to_nat (len - start') in
  let kept := firstn (Z.to_nat start') padded in
  if (length wave =? slice_len)%nat then Returned (kept ++ wave)
  else
    match wave with
    | [w] => Returned (kept ++ repeat w slice_len)
    | _ => Raised ValueError
    end.

(** The body of the strum loop of [play_chord]; [samples] is the list the
    loop appends to, and a muted string ([None]) is skipped. *)
Definition strum_step (AUDIO_AVAILABLE : bool) (rng : nat -> nat -> R)
    (strum_delay : R) (x : nat * (string * option Z))
    (samples : list (list R)) : outcome (list (list R)) :=
  let '(i, (string, fret)) := x in
  match fret with
  | None => Returned samples
  | Some fret =>
      freq <- get_note_freq string fret ;;
      wave <- generate_pluck AUDIO_AVAILABLE (rng i) freq duration
                sample_rate ;;
      match wave with
      | None => Raised TypeError
      | Some wave =>
          let delay_samples :=
            Py.int (INR i * strum_delay * IZR sample_rate) in
          padded <- Np.zeros (Z.of_nat (length wave) + delay_samples) ;;
          padded <- assign_from padded delay_samples wave ;;
          Returned (samples ++ [padded])
      end
  end.

(** The strum loop, [for i, (string, fret) in enumerate(zip(strings,
    frets))], from an empty [samples]; the pluck of string [i] draws its
    noise from [rng i]. *)
Definition strum (AUDIO_AVAILABLE : bool) (rng : nat -> nat -> R)
    (frets : list (option Z)) (strum_delay : R) : outcome (list (list R)) :=
  for_each (Py.enumerate (combine strings frets))
    (strum_step AUDIO_AVAILABLE rng strum_delay) [].

(** Summing the padded voices into a zeroed buffer as long as the longest. *)
Definition mix (samples : list (list R)) : list R :=
  let max_len := list_max (map (@length R) samples) in
  fold_left Np.add_prefix samples (repeat 0 max_len).

Definition normalize (mixed : list R) : outcome (list R) :=
  peak <- Np.max (map Rabs mixed) ;;
  Returned (map (fun x => x / (peak + 0.001) * 0.7) mixed).

(** [play_chord(frets, strum_delay)]: the submissions issued to the sink.
    An exception of [sd.play] itself is swallowed by the code, so the
    submission is recorded either way. *)
Definition play_chord (AUDIO_AVAILABLE : bool) (rng : nat -> nat -> R)
    (frets : list (option Z)) (strum_delay : R) : outcome (list Submission) :=
  if negb AUDIO_AVAILABLE then Returned []
  else
    samples <- strum AUDIO_AVAILABLE rng frets strum_delay ;;
    match samples with
    | [] => Returned []
    | _ =>
        mixed <- normalize (mix samples) ;;
        Returned [(mixed, sample_rate)]
    end.

(** The frets of the open G chord, strings E, A, D, G, B, e: [None] is a
    muted string and 0 an open one ([chords.py]). *)
Definition chord_G : list (option Z) :=
  [Some 3; Some 2; Some 0; Some 0; Some 0; Some 3]%Z.

(** Six muted strings. *)
Definition all_muted : list (option Z) :=
  [None; None; None; None; None; None].

(** [play_click(freq, duration)] *)
Definition play_click (AUDIO_AVAILABLE : bool) (freq duration : R)
    : outcome (list Submission) :=
  if negb AUDIO_AVAILABLE then Returned []
  else
    let n := Py.int (IZR sample_rate * duration) in
    if (n <? 0)%Z then Raised ValueError
    else
      let t := Np.linspace 0 duration (Z.to_nat n) in
      let wave :=
        map (fun ti => sin (2 * PI * freq * ti) * (exp (-30 * ti) * 0.5)) t in
      Returned [(wave, sample_rate)].

(** ** MetronomeScheduler *)

Definition Thread : Type := nat.
Definition Callback : Type := nat.

(** What the background loop does, as seen from outside. *)
Inductive Event : Type :=
| PlayClick (freq : R)
| BeatCallback (callback : Callback)
| Sleep (seconds : R)
| ThreadDied (e : exn).

Module Metronome.

Record t : Type := mk {
  bpm : Z;
  _running : bool;
  _thread : option Thread;
  _beat_callback : option Callback
}.

(** [Metronome.__init__(bpm)] *)
Definition __init__ (bpm : Z) : t :=
  {| bpm := bpm; _running := false; _thread := None; _beat_callback := None |}.

(** [start(beat_callback)]; [fresh] is the handle of the spawned thread. *)
Definition start (self : t) (beat_callback : option Callback)
    (fresh : Thread) : t :=
  if _running self then self
  else {| bpm := bpm self; _running := true; _thread := Some fresh;
          _beat_callback := beat_callback |}.

(** [stop()] *)
Definition stop (self : t) : t :=
  {| bpm := bpm self; _running := false; _thread := None;
     _beat_callback := _beat_callback self |}.

(** [set_bpm(bpm)] *)
Definition set_bpm (self : t) (bpm' : Z) : t :=
  {| bpm := Z.max 40 (Z.min 200 bpm'); _running := _running self;
     _thread := _thread self; _beat_callback := _beat_callback self |}.

Definition is_running (self : t) : bool := _running self.

(** [time.sleep(60.0 / self.bpm)]: the division raises on a zero tempo
    and [time.sleep] refuses a negative length. *)
Definition sleep_period (self : t) : outcome R :=
  seconds <- Py.truediv 60.0 (IZR (bpm self)) ;;
  if Rlt_dec seconds 0 then Raised ValueError else Returned seconds.

(** [_run()], the loop of the background thread. The fields of [self]
    are written by other threads while the loop runs, so the loop is
    given the object as it finds it at each pass: [observed] lists these
    views, the first pass first. Every pass is reported with the value
    of the local [beat] at its start and the events it caused, in
    order; the loop ends when it finds the flag off (or when the views
    run out, which cuts the report short). The callback is taken to
    return. *)
Fixpoint _run (observed : list t) (beat : Z) : list (Z * list Event) :=
  match observed with
  | [] => []
  | self :: later =>
      if _running self then
        let freq := if (beat =? 0)%Z then 1200 else 800 in
        let notify :=
          match _beat_callback self with
          | Some callback => [BeatCallback callback]
          | None => []
          end in
        let beat' := ((beat + 1) mod 4)%Z in
        match sleep_period self with
        | Returned seconds =>
            (beat, PlayClick freq :: notify ++ [Sleep seconds])
              :: _run later beat'
        | Raised e => [(beat, PlayClick freq :: notify ++ [ThreadDied e])]
        end
      else []
  end.

End Metronome.

(** ** Calls on a metronome *)

(** The public methods of [Metronome] as data, to speak of any sequence
    of calls on one object. *)
Inductive MetronomeCall : Type :=
| CallStart (beat_callback : option Callback) (fresh : Thread)
| CallStop
| CallSetBpm (bpm : Z).

Definition perform (self : Metronome.t) (call : MetronomeCall) : Metronome.t :=
  match call with
  | CallStart beat_callback fresh => Metronome.start self beat_callback fresh
  | CallStop => Metronome.stop self
  | CallSetBpm bpm => Metronome.set_bpm self bpm
  end.

Definition perform_all (self : Metronome.t) (calls : list MetronomeCall)
    : Metronome.t :=
  fold_left perform calls self.

(** * Chord data and rendering ([chords.py]) *)

From Stdlib Require DecimalString.

(** ** Python dicts with string keys

    A dict keeps its keys in insertion order; [dict_get] above is
    [d[k]]. *)

(** [d[k] = v]: the value of an existing key is replaced where it is, a
    new key goes to the end. *)
Fixpoint dict_set {V : Type} (d : list (string * V)) (k : string) (v : V)
    : list (string * V) :=
  match d with
  | [] => [(k, v)]
  | (k', v') :: rest =>
      if String.eqb k k' then (k', v) :: rest
      else (k', v') :: dict_set rest k v
  end.

(** [k in d] *)
Definition dict_contains {V : Type} (d : list (string * V)) (k : string)
    : bool :=
  existsb (fun kv => String.eqb k (fst kv)) d.

(** [d.keys()] and [d.values()] *)
Definition dict_keys {V : Type} (d : list (string * V)) : list string :=
  map fst d.

Definition dict_values {V : Type} (d : list (string * V)) : list V :=
  map snd d.

(** ** Subscripting and formatting *)

(** The result of [xs[i]] on a tuple: the item, or [IndexError]. *)
Inductive subscript (A : Type) : Type :=
| Item (a : A)
| IndexError.

Arguments Item {A} a.
Arguments IndexError {A}.

(** [xs[i]], a negative index counting from the end. *)
Definition tuple_getitem {A : Type} (xs : list A) (i : Z) : subscript A :=
  let n := Z.of_nat (length xs) in
  let j := if (i <? 0)%Z then (i + n)%Z else i in
  if ((j <? 0) || (n <=? j))%Z then IndexError
  else
    match nth_error xs (Z.to_nat j) with
    | Some a => Item a
    | None => IndexError
    end.

(** [str(n)] for an int *)
Definition str_of_int (n : Z) : string :=
  DecimalString.NilZero.string_of_int (Z.to_int n).

(** The one-character string ["\n"]. *)
Definition newline : string := String (Ascii.ascii_of_nat 10) EmptyString.

Fixpoint spaces (n : nat) : string :=
  match n with
  | O => EmptyString
  | S m => String.append " " (spaces m)
  end.

(** [f"{val:^width}"]: centred, the odd space going to the right. *)
Definition format_center (val : string) (width : nat) : string :=
  let len := String.length val in
  if (width <=? len)%nat then val
  else
    let pad := (width - len)%nat in
    let left := (pad / 2)%nat in
    String.append (spaces left)
      (String.append val (spaces (pad - left))).

Module chords.

Local Open Scope string_scope.
Local Open Scope Z_scope.

Module Chord.

Record t : Type := mk {
  name : string;
  category : string;
  frets : list (option Z);
  fingers : list (option Z);
  barre : option Z
}.

(** One line of the tab: [f"{string} ──{val:^3}──"]. *)
Definition tab_line (string : String.string) (fret : option Z)
    : String.string :=
  let val :=
    match fret with
    | None => "x"
    | Some fret => str_of_int fret
    end in
  string ++ " ──" ++ format_center val 3 ++ "──".

Fixpoint tab_loop (self : t) (items : list (nat * string))
    (lines : list string) : subscript (list string) :=
  match items with
  | [] => Item lines
  | (i, string) :: rest =>
      match tuple_getitem (frets self) (5 - Z.of_nat i) with
      | IndexError => IndexError
      | Item fret => tab_loop self rest (lines ++ [tab_line string fret])%list
      end
  end.

(** The property [tab_notation]. *)
Definition tab_notation (self : t) : subscript (list string) :=
  tab_loop self (Py.enumerate ["e"; "B"; "G"; "D"; "A"; "E"]) [].

End Chord.

(** [FINGER_CIRCLES], keyed by a finger number or [None]. *)
Definition FINGER_CIRCLES : list (option Z * string) :=
  [ (Some 1, "①"); (Some 2, "②"); (Some 3, "③"); (Some 4, "④");
    (None, " ") ].

Definition option_Z_eqb (a b : option Z) : bool :=
  match a, b with
  | Some x, Some y => x =? y
  | None, None => true
  | _, _ => false
  end.

(** [FINGER_CIRCLES.get(finger, default)] *)
Fixpoint circles_get (d : list (option Z * string)) (finger : option Z)
    (default : string) : string :=
  match d with
  | [] => default
  | (k, v) :: rest =>
      if option_Z_eqb finger k then v else circles_get rest finger default
  end.

(** The row of open and muted marks under the header. *)
Definition open_muted (chord : Chord.t) : string :=
  fold_left
    (fun acc fret =>
       match fret with
       | None => acc ++ "× "
       | Some 0 => acc ++ "○ "
       | Some _ => acc ++ "  "
       end)
    (Chord.frets chord) "    ".

(** [[f for f in chord.frets if f and f > 0]] *)
Definition non_zero_frets (chord : Chord.t) : list Z :=
  flat_map
    (fun fret =>
       match fret with
       | Some f => if negb (f =? 0) && (0 <? f) then [f] else []
       | None => []
       end)
    (Chord.frets chord).

(** The first fret of the four that are drawn. *)
Definition start_fret (chord : Chord.t) : Z :=
  match non_zero_frets chord with
  | [] => 1
  | f :: fs =>
      let min_fret := fold_left Z.min fs f in
      let max_fret := fold_left Z.max fs f in
      if max_fret <=? 4 then 1 else min_fret
  end.

(** [fret == fret_num] for a fret that may be [None]. *)
Definition fret_is (fret : option Z) (fret_num : Z) : bool :=
  match fret with
  | Some f => f =? fret_num
  | None => false
  end.

(** The marks of one fret row, one per (fret, finger) pair, with the
    bar of a barre chord on the row of its barre. *)
Definition positions (chord : Chord.t) (fret_num : Z) : list string :=
  let plain :=
    map (fun '(fret, finger) =>
           if fret_is fret fret_num
           then circles_get FINGER_CIRCLES finger "●"
           else " ")
        (combine (Chord.frets chord) (Chord.fingers chord)) in
  match Chord.barre chord with
  | Some barre =>
      if negb (barre =? 0) && (fret_num =? barre) then
        map (fun '(fret, finger) =>
               if fret_is fret barre && option_Z_eqb finger (Some 1)
               then "━"
               else if fret_is fret fret_num
               then circles_get FINGER_CIRCLES finger "●"
               else if match fret with Some _ => true | None => false end
                       && (barre <=? fret_num)
               then " "
               else " ")
            (combine (Chord.frets chord) (Chord.fingers chord))
      else plain
  | None => plain
  end.

(** The lines one fret adds: the row and, but for the last, a
    separator. *)
Definition fret_lines (chord : Chord.t) (fret_num : Z) : list string :=
  let start := start_fret chord in
  let fret_label :=
    if start =? 1 then (if 0 <? fret_num then str_of_int fret_num else " ")
    else str_of_int fret_num in
  let fret_line :=
    (" " ++ fret_label ++ " ")
    ++ "│" ++ String.concat "│" (positions chord fret_num) ++ "│" in
  if fret_num <? start + 3 then [fret_line; "    ├─┼─┼─┼─┼─┤"]
  else [fret_line].

(** The local [lines] of [render_chord_diagram] when it returns. *)
Definition diagram_lines (chord : Chord.t) : list string :=
  let start := start_fret chord in
  (["    E A D G B e"; open_muted chord]
   ++ [if start =? 1 then "    ╒═╤═╤═╤═╤═╕"
       else (" " ++ str_of_int start ++ "  ┌─┬─┬─┬─┬─┐")%string]
   ++ flat_map (fret_lines chord) [start; start + 1; start + 2; start + 3]
   ++ ["    └─┴─┴─┴─┴─┘"])%list.

Definition render_chord_diagram (chord : Chord.t) : string :=
  String.concat newline (diagram_lines chord).

(** [_add], on the dict it writes to. *)
Definition _add (CHORDS : list (string * Chord.t)) (name category : string)
    (frets fingers : list (option Z)) (barre : option Z)
    : list (string * Chord.t) :=
  dict_set CHORDS name (Chord.mk name category frets fingers barre).

(** The chord library, built by the calls of [_add] in their order. *)
Definition CHORDS : list (string * Chord.t) :=
  let CHORDS := [] in
  let CHORDS := _add CHORDS "G" "Open Major"
    [Some 3; Some 2; Some 0; Some 0; Some 0; Some 3]
    [Some 2; Some 1; None; None; None; Some 3] None in
  let CHORDS := _add CHORDS "C" "Open Major"
    [None; Some 3; Some 2; Some 0; Some 1; Some 0]
    [None; Some 3; Some 2; None; Some 1; None] None in
  let CHORDS := _add CHORDS "D" "Open Major"
    [None; None; Some 0; Some 2; Some 3; Some 2]
    [None; None; None; Some 1; Some 3; Some 2] None in
  let CHORDS := _add CHORDS "E" "Open Major"
    [Some 0; Some 2; Some 2; Some 1; Some 0; Some 0]
    [None; Some 2; Some 3; Some 1; None; None] None in
  let CHORDS := _add CHORDS "A" "Open Major"
    [None; Some 0; Some 2; Some 2; Some 2; Some 0]
    [None; None; Some 1; Some 2; Some 3; None] None in
  let CHORDS := _add CHORDS "Em" "Open Minor"
    [Some 0; Some 2; Some 2; Some 0; Some 0; Some 0]
    [None; Some 2; Some 3; None; None; None] None in
  let CHORDS := _add CHORDS "Am" "Open Minor"
    [None; Some 0; Some 2; Some 2; Some 1; Some 0]
    [None; None; Some 2; Some 3; Some 1; None] None in
  let CHORDS := _add CHORDS "Dm" "Open Minor"
    [None; None; Some 0; Some 2; Some 3; Some 1]
    [None; None; None; Some 2; Some 3; Some 1] None in
  let CHORDS := _add CHORDS "G7" "7th"
    [Some 3; Some 2; Some 0; Some 0; Some 0; Some 1]
    [Some 3; Some 2; None; None; None; Some 1] None in
  let CHORDS := _add CHORDS "C7" "7th"
    [None; Some 3; Some 2; Some 3; Some 1; Some 0]
    [None; Some 3; Some 2; Some 4; Some 1; None] None in
  let CHORDS := _add CHORDS "D7" "7th"
    [None; None; Some 0; Some 2; Some 1; Some 2]
    [None; None; None; Some 2; Some 1; Some 3] None in
  let CHORDS := _add CHORDS "A7" "7th"
    [None; Some 0; Some 2; Some 0; Some 2; Some 0]
    [None; None; Some 2; None; Some 3; None] None in
  let CHORDS := _add CHORDS "E7" "7th"
    [Some 0; Some 2; Some 0; Some 1; Some 0; Some 0]
    [None; Some 2; None; Some 1; None; None] None in
  let CHORDS := _add CHORDS "Am7" "7th"
    [None; Some 0; Some 2; Some 0; Some 1; Some 0]
    [None; None; Some 2; None; Some 1; None] None in
  let CHORDS := _add CHORDS "Em7" "7th"
    [Some 0; Some 2; Some 0; Some 0; Some 0; Some 0]
    [None; Some 2; None; None; None; None] None in
  let CHORDS := _add CHORDS "Dm7" "7th"
    [None; None; Some 0; Some 2; Some 1; Some 1]
    [None; None; None; Some 2; Some 1; Some 1] None in
  let CHORDS := _add CHORDS "Cmaj7" "7th"
    [None; Some 3; Some 2; Some 0; Some 0; Some 0]
    [None; Some 3; Some 2; None; None; None] None in
  let CHORDS := _add CHORDS "Fmaj7" "7th"
    [None; None; Some 3; Some 2; Some 1; Some 0]
    [None; None; Some 3; Some 2; Some 1; None] None in
  let CHORDS := _add CHORDS "Dsus2" "Sus"
    [None; None; Some 0; Some 2; Some 3; Some 0]
    [None; None; None; Some 1; Some 3; None] None in
  let CHORDS := _add CHORDS "Dsus4" "Sus"
    [None; None; Some 0; Some 2; Some 3; Some 3]
    [None; None; None; Some 1; Some 3; Some 4] None in
  let CHORDS := _add CHORDS "Asus2" "Sus"
    [None; Some 0; Some 2; Some 2; Some 0; Some 0]
    [None; None; Some 1; Some 2; None; None] None in
  let CHORDS := _add CHORDS "Asus4" "Sus"
    [None; Some 0; Some 2; Some 2; Some 3; Some 0]
    [None; None; Some 1; Some 2; Some 4; None] None in
  let CHORDS := _add CHORDS "Esus4" "Sus"
    [Some 0; Some 2; Some 2; Some 2; Some 0; Some 0]
    [None; Some 2; Some 3; Some 4; None; None] None in
  let CHORDS := _add CHORDS "F" "Barre"
    [Some 1; Some 3; Some 3; Some 2; Some 1; Some 1]
    [Some 1; Some 3; Some 4; Some 2; Some 1; Some 1] (Some 1) in
  let CHORDS := _add CHORDS "Bm" "Barre"
    [None; Some 2; Some 4; Some 4; Some 3; Some 2]
    [None; Some 1; Some 3; Some 4; Some 2; Some 1] (Some 2) in
  let CHORDS := _add CHORDS "F#m" "Barre"
    [Some 2; Some 4; Some 4; Some 2; Some 2; Some 2]
    [Some 1; Some 3; Some 4; Some 1; Some 1; Some 1] (Some 2) in
  let CHORDS := _add CHORDS "Bb" "Barre"
    [None; Some 1; Some 3; Some 3; Some 3; Some 1]
    [None; Some 1; Some 2; Some 3; Some 4; Some 1] (Some 1) in
  let CHORDS := _add CHORDS "B" "Barre"
    [None; Some 2; Some 4; Some 4; Some 4; Some 2]
    [None; Some 1; Some 2; Some 3; Some 4; Some 1] (Some 2) in
  let CHORDS := _add CHORDS "Cadd9" "Add"
    [None; Some 3; Some 2; Some 0; Some 3; Some 0]
    [None; Some 2; Some 1; None; Some 3; None] None in
  let CHORDS := _add CHORDS "Gadd9" "Add"
    [Some 3; Some 2; Some 0; Some 2; Some 0; Some 3]
    [Some 2; Some 1; None; Some 3; None; Some 4] None in
  let CHORDS := _add CHORDS "D6/9" "Add"
    [None; None; Some 0; Some 2; Some 0; Some 0]
    [None; None; None; Some 2; None; None] None in
  CHORDS.

(** One pass of the loop of [get_chords_by_category]. *)
Definition by_category_step (chord : Chord.t)
    (categories : list (string * list Chord.t))
    : outcome (list (string * list Chord.t)) :=
  let categories :=
    if negb (dict_contains categories (Chord.category chord))
    then dict_set categories (Chord.category chord) []
    else categories in
  members <- dict_get categories (Chord.category chord) ;;
  Returned
    (dict_set categories (Chord.category chord) (members ++ [chord])%list).

(** [get_chords_by_category()], on the library it reads. *)
Definition get_chords_by_category (CHORDS : list (string * Chord.t))
    : outcome (list (string * list Chord.t)) :=
  for_each (dict_values CHORDS) by_category_step [].

Definition order : list string :=
  ["Open Major"; "Open Minor"; "7th"; "Sus"; "Barre"; "Add"].

(** [get_chord_list()], on the library it reads. *)
Definition get_chord_list (CHORDS : list (string * Chord.t))
    : outcome (list Chord.t) :=
  by_cat <- get_chords_by_category CHORDS ;;
  for_each order
    (fun cat result =>
       if dict_contains by_cat cat then
         members <- dict_get by_cat cat ;;
         Returned (result ++ members)%list
       else Returned result)
    [].

End chords.

(** * Progressions and songs ([data.py]) *)

Module data.

Local Open Scope string_scope.

Module Progression.

Record t : Type := mk {
  name : string;
  description : string;
  chords : list string;
  numerals : string
}.

End Progression.

Module Song.

Record t : Type := mk {
  title : string;
  artist : string;
  chords : list string
}.

End Song.

Definition PROGRESSIONS : list (string * Progression.t) :=
  [
    ("pop",
     Progression.mk "Pop"
       "I-V-vi-IV - The most common pop progression"
       ["G"; "D"; "Em"; "C"]
       "I → V → vi → IV");
    ("rock",
     Progression.mk "Rock"
       "I-IV-V-I - Classic rock & roll"
       ["G"; "C"; "D"; "G"]
       "I → IV → V → I");
    ("blues",
     Progression.mk "Blues"
       "12-bar blues in A"
       ["A"; "A"; "A"; "A"; "D"; "D"; "A"; "A"; "E"; "D"; "A"; "E"]
       "I-I-I-I-IV-IV-I-I-V-IV-I-V");
    ("sad",
     Progression.mk "Sad"
       "vi-IV-I-V - Emotional minor feel"
       ["Am"; "F"; "C"; "G"]
       "vi → IV → I → V");
    ("jazz",
     Progression.mk "Jazz"
       "ii-V-I - The most common jazz progression"
       ["Dm7"; "G7"; "Cmaj7"]
       "ii → V → I");
    ("folk",
     Progression.mk "Folk"
       "I-IV-I-V - Simple folk pattern"
       ["G"; "C"; "G"; "D"]
       "I → IV → I → V");
    ("doowop",
     Progression.mk "Doo-Wop"
       "I-vi-IV-V - 50s progression"
       ["C"; "Am"; "F"; "G"]
       "I → vi → IV → V");
    ("andalusian",
     Progression.mk "Andalusian"
       "i-VII-VI-V - Spanish/flamenco cadence"
       ["Am"; "G"; "F"; "E"]
       "i → VII → VI → V")
  ].

Definition SONGS : list Song.t :=
  [
    Song.mk "Wonderwall" "Oasis"
      ["Em"; "G"; "D"; "A"];
    Song.mk "Horse With No Name" "America"
      ["Em"; "D6/9"];
    Song.mk "Knockin' on Heaven's Door" "Bob Dylan"
      ["G"; "D"; "Am"; "C"];
    Song.mk "Let It Be" "Beatles"
      ["C"; "G"; "Am"; "F"];
    Song.mk "No Woman No Cry" "Bob Marley"
      ["C"; "G"; "Am"; "F"];
    Song.mk "Leaving on a Jet Plane" "John Denver"
      ["G"; "C"; "D"];
    Song.mk "Brown Eyed Girl" "Van Morrison"
      ["G"; "C"; "G"; "D"];
    Song.mk "Sweet Home Alabama" "Lynyrd Skynyrd"
      ["D"; "C"; "G"];
    Song.mk "Wish You Were Here" "Pink Floyd"
      ["Em"; "G"; "A7"; "Em"];
    Song.mk "Three Little Birds" "Bob Marley"
      ["A"; "D"; "E"];
    Song.mk "Free Fallin'" "Tom Petty"
      ["D"; "G"; "A"];
    Song.mk "Bad Moon Rising" "CCR"
      ["D"; "A"; "G"];
    Song.mk "Have You Ever Seen the Rain" "CCR"
      ["Am"; "F"; "C"; "G"];
    Song.mk "Proud Mary" "CCR"
      ["D"; "A"; "Bm"; "G"];
    Song.mk "Wild Thing" "The Troggs"
      ["A"; "D"; "E"];
    Song.mk "Louie Louie" "The Kingsmen"
      ["A"; "D"; "Em"];
    Song.mk "La Bamba" "Ritchie Valens"
      ["C"; "F"; "G"];
    Song.mk "Twist and Shout" "Beatles"
      ["D"; "G"; "A"];
    Song.mk "I Saw Her Standing There" "Beatles"
      ["E"; "A"; "B"];
    Song.mk "Love Me Do" "Beatles"
      ["G"; "C"; "D"];
    Song.mk "Blowin' in the Wind" "Bob Dylan"
      ["G"; "C"; "D"];
    Song.mk "The Times They Are A-Changin'" "Bob Dylan"
      ["G"; "Em"; "C"; "D"];
    Song.mk "Mr. Tambourine Man" "Bob Dylan"
      ["G"; "A"; "D"];
    Song.mk "Hey Jude" "Beatles"
      ["F"; "C"; "Bb"];
    Song.mk "Here Comes the Sun" "Beatles"
      ["G"; "C"; "D"; "A"];
    Song.mk "Blackbird" "Beatles"
      ["G"; "Am"; "C"; "D"];
    Song.mk "Yesterday" "Beatles"
      ["G"; "F"; "Em"; "D"];
    Song.mk "Redemption Song" "Bob Marley"
      ["G"; "Em"; "C"; "Am"; "D"];
    Song.mk "Stir It Up" "Bob Marley"
      ["A"; "D"; "E"];
    Song.mk "Is This Love" "Bob Marley"
      ["F"; "Am"; "Dm"; "C"];
    Song.mk "Wagon Wheel" "Old Crow Medicine Show"
      ["G"; "D"; "Em"; "C"];
    Song.mk "Ho Hey" "The Lumineers"
      ["C"; "F"; "Am"; "G"];
    Song.mk "Riptide" "Vance Joy"
      ["Am"; "G"; "C"];
    Song.mk "I'm Yours" "Jason Mraz"
      ["G"; "D"; "Em"; "C"];
    Song.mk "Hey There Delilah" "Plain White T's"
      ["D"; "A"; "Bm"; "G"];
    Song.mk "Chasing Cars" "Snow Patrol"
      ["A"; "E"; "D"];
    Song.mk "The Scientist" "Coldplay"
      ["Dm"; "F"; "C"; "Bb"];
    Song.mk "Yellow" "Coldplay"
      ["G"; "D"; "C"];
    Song.mk "Fix You" "Coldplay"
      ["C"; "Em"; "G"];
    Song.mk "Clocks" "Coldplay"
      ["D"; "Am"; "Em"];
    Song.mk "Counting Stars" "OneRepublic"
      ["Am"; "C"; "G"; "F"];
    Song.mk "Demons" "Imagine Dragons"
      ["D"; "A"; "Bm"; "G"];
    Song.mk "Radioactive" "Imagine Dragons"
      ["Am"; "C"; "G"; "D"];
    Song.mk "Viva La Vida" "Coldplay"
      ["C"; "D"; "G"; "Em"];
    Song.mk "Use Somebody" "Kings of Leon"
      ["C"; "Em"; "Am"; "F"];
    Song.mk "Sex on Fire" "Kings of Leon"
      ["E"; "A"];
    Song.mk "Boulevard of Broken Dreams" "Green Day"
      ["Em"; "G"; "D"; "A"];
    Song.mk "Good Riddance" "Green Day"
      ["G"; "Cadd9"; "D"];
    Song.mk "21 Guns" "Green Day"
      ["D"; "Bm"; "G"; "A"];
    Song.mk "When I Come Around" "Green Day"
      ["G"; "D"; "Em"; "C"];
    Song.mk "Take Me Home, Country Roads" "John Denver"
      ["G"; "Em"; "D"; "C"];
    Song.mk "Ring of Fire" "Johnny Cash"
      ["G"; "C"; "D"];
    Song.mk "Folsom Prison Blues" "Johnny Cash"
      ["E"; "A"; "B"];
    Song.mk "I Walk the Line" "Johnny Cash"
      ["A"; "D"; "E"];
    Song.mk "Jolene" "Dolly Parton"
      ["Am"; "C"; "G"; "Em"];
    Song.mk "Crazy" "Patsy Cline"
      ["G"; "E7"; "Am"; "D7"];
    Song.mk "Stand By Your Man" "Tammy Wynette"
      ["A"; "D"; "E"];
    Song.mk "Friends in Low Places" "Garth Brooks"
      ["A"; "Bm"; "E"];
    Song.mk "The Gambler" "Kenny Rogers"
      ["C"; "F"; "G"];
    Song.mk "On the Road Again" "Willie Nelson"
      ["E"; "A"; "B"];
    Song.mk "With or Without You" "U2"
      ["D"; "A"; "Bm"; "G"];
    Song.mk "One" "U2"
      ["Am"; "D"; "Fmaj7"; "G"];
    Song.mk "Where the Streets Have No Name" "U2"
      ["D"; "G"; "Bm"; "A"];
    Song.mk "Every Breath You Take" "The Police"
      ["A"; "F#m"; "D"; "E"];
    Song.mk "Zombie" "The Cranberries"
      ["Em"; "C"; "G"; "D"];
    Song.mk "Dreams" "The Cranberries"
      ["G"; "D"; "Am"; "C"];
    Song.mk "Linger" "The Cranberries"
      ["A"; "D"; "E"];
    Song.mk "Creep" "Radiohead"
      ["G"; "B"; "C"];
    Song.mk "Torn" "Natalie Imbruglia"
      ["F"; "Am"; "Bb"; "C"];
    Song.mk "Breakfast at Tiffany's" "Deep Blue Something"
      ["D"; "G"; "A"];
    Song.mk "Someone Like You" "Adele"
      ["A"; "E"; "F#m"; "D"];
    Song.mk "Rolling in the Deep" "Adele"
      ["Am"; "Em"; "G"];
    Song.mk "Stay With Me" "Sam Smith"
      ["Am"; "F"; "C"];
    Song.mk "Thinking Out Loud" "Ed Sheeran"
      ["D"; "G"; "A"; "Bm"];
    Song.mk "Perfect" "Ed Sheeran"
      ["G"; "Em"; "C"; "D"];
    Song.mk "Shape of You" "Ed Sheeran"
      ["Am"; "Dm"; "F"; "G"];
    Song.mk "Photograph" "Ed Sheeran"
      ["E"; "A"; "B"];
    Song.mk "Let Her Go" "Passenger"
      ["G"; "D"; "Em"; "C"];
    Song.mk "Happier" "Marshmello"
      ["Am"; "F"; "C"; "G"];
    Song.mk "Shallow" "Lady Gaga"
      ["Em"; "D"; "G"; "C"];
    Song.mk "Pumped Up Kicks" "Foster the People"
      ["Em"; "G"; "D"; "A"];
    Song.mk "Little Talks" "Of Monsters and Men"
      ["Am"; "F"; "C"; "G"];
    Song.mk "Take Me to Church" "Hozier"
      ["Em"; "Am"; "G"; "C"];
    Song.mk "The A Team" "Ed Sheeran"
      ["G"; "D"; "Em"; "C"];
    Song.mk "Budapest" "George Ezra"
      ["G"; "D"; "C"];
    Song.mk "Shotgun" "George Ezra"
      ["G"; "D"; "Em"; "C"];
    Song.mk "Mr. Brightside" "The Killers"
      ["D"; "G"; "Bm"; "A"];
    Song.mk "Somewhere Only We Know" "Keane"
      ["A"; "E"; "D"];
    Song.mk "High and Dry" "Radiohead"
      ["E"; "A"; "F#m"];
    Song.mk "Champagne Supernova" "Oasis"
      ["A"; "E"; "D"];
    Song.mk "House of the Rising Sun" "The Animals"
      ["Am"; "C"; "D"; "F"; "E"];
    Song.mk "Stand By Me" "Ben E. King"
      ["A"; "F#m"; "D"; "E"];
    Song.mk "Lean on Me" "Bill Withers"
      ["C"; "F"; "G"];
    Song.mk "Ain't No Sunshine" "Bill Withers"
      ["Am"; "Em"; "Dm"];
    Song.mk "What's Going On" "Marvin Gaye"
      ["E"; "C"; "G"; "D"];
    Song.mk "Wonderful Tonight" "Eric Clapton"
      ["G"; "D"; "C"];
    Song.mk "Tears in Heaven" "Eric Clapton"
      ["A"; "E"; "F#m"; "D"];
    Song.mk "Layla (Unplugged)" "Eric Clapton"
      ["Am"; "C"; "G"; "D"];
    Song.mk "Hotel California" "Eagles"
      ["Am"; "E"; "G"; "D"; "F"; "C"; "Dm"];
    Song.mk "Take It Easy" "Eagles"
      ["G"; "D"; "C"; "Em"]
  ].

End data.

(** * Properties *)

(** ** Numbers *)


Lemma int_of_IZR (z : Z) : Py.int (IZR z) = z.
Proof.
  unfold Py.int. destruct (Rle_dec 0 (IZR z)) as [_ | _].
  - apply ZfloorZ.
  - unfold Zceil. rewrite <- opp_IZR, ZfloorZ. lia.
Qed.

Lemma int_nonneg (x : R) : 0 <= x -> (0 <= Py.int x)%Z.
Proof.
  intros Hx. unfold Py.int.
  destruct (Rle_dec 0 x) as [_ | Hn]; [ | contradiction].
  now apply Zfloor_lub.
Qed.

Lemma int_ge_1 (x : R) : 1 <= x -> (1 <= Py.int x)%Z.
Proof.
  intros Hx. unfold Py.int.
  destruct (Rle_dec 0 x) as [_ | Hn]; [ | lra].
  now apply Zfloor_lub.
Qed.

(** Between -1 and 1 the truncation is 0. *)
Lemma int_small (x : R) : -1 < x < 1 -> Py.int x = 0%Z.
Proof.
  intros [Hl Hu]. unfold Py.int.
  destruct (Rle_dec 0 x) as [Hp | Hn].
  - apply Zfloor_eq. simpl. lra.
  - apply Zceil_eq. simpl. lra.
Qed.

Lemma int_neg (x : R) : x <= -1 -> (Py.int x < 0)%Z.
Proof.
  intros Hx. unfold Py.int.
  destruct (Rle_dec 0 x) as [Hp | _]; [lra | ].
  pose proof (Zceil_bound x) as [Hl _].
  apply lt_IZR. lra.
Qed.

(** ** FrequencyModel *)

Lemma FRET_RATIO_gt_1 : 1 < FRET_RATIO.
Proof.
  unfold FRET_RATIO.
  rewrite <- (Rpower_O 2) at 1 by lra.
  apply Rpower_lt; lra.
Qed.

Lemma FRET_RATIO_pos : 0 < FRET_RATIO.
Proof. pose proof FRET_RATIO_gt_1. lra. Qed.

(** Twelve semitones make an octave. *)
Lemma FRET_RATIO_octave : FRET_RATIO ^ 12 = 2.
Proof.
  rewrite <- (Rpower_pow 12 FRET_RATIO FRET_RATIO_pos).
  unfold FRET_RATIO. rewrite Rpower_mult.
  replace (1 / 12 * INR 12) with 1 by (simpl; lra).
  apply Rpower_1. lra.
Qed.


Lemma fret_power_increasing (f1 f2 : Z) :
  (f1 < f2)%Z -> powerRZ FRET_RATIO f1 < powerRZ FRET_RATIO f2.
Proof.
  intros Hlt.
  rewrite !(powerRZ_Rpower _ _ FRET_RATIO_pos).
  apply Rpower_lt; [apply FRET_RATIO_gt_1 | now apply IZR_lt].
Qed.

Lemma fret_power_le (f1 f2 : Z) :
  (f1 <= f2)%Z -> powerRZ FRET_RATIO f1 <= powerRZ FRET_RATIO f2.
Proof.
  intros Hle. destruct (Z.eq_dec f1 f2) as [-> | Hne]; [lra | ].
  left. apply fret_power_increasing. lia.
Qed.


Lemma recognized_string (s : string) :
  In s strings ->
  exists base, dict_get STRING_FREQS s = Returned base
               /\ 82.41 <= base <= 329.63.
Proof.
  unfold strings. simpl.
  intros [<- | [<- | [<- | [<- | [<- | [<- | []]]]]]];
    simpl; eexists; (split; [reflexivity | lra]).
Qed.

Lemma get_note_freq_recognized (s : string) (fret : Z) :
  In s strings ->
  exists base, dict_get STRING_FREQS s = Returned base
               /\ 82.41 <= base <= 329.63
               /\ get_note_freq s fret
                  = Returned (base * powerRZ FRET_RATIO fret).
Proof.
  intros Hs. destruct (recognized_string s Hs) as (base & Hget & Hb).
  exists base. repeat split; try tauto.
  unfold get_note_freq. now rewrite Hget.
Qed.



(** ** StringSynthesizer *)

Lemma setitem_length {A : Type} (l : list A) (i : nat) (v : A) :
  length (Py.setitem l i v) = length l.
Proof.
  revert i. induction l as [ | h t IH]; intros [ | j]; simpl; auto.
Qed.

Lemma linspace_length (start stop : R) (num : nat) :
  length (Np.linspace start stop num) = num.
Proof.
  destruct num as [ | [ | n]]; simpl; try reflexivity.
  now rewrite length_map, length_seq.
Qed.

Lemma multiply_length (a b : list R) :
  length a = length b -> length (Np.multiply a b) = length a.
Proof.
  revert b. induction a as [ | x a IH]; intros [ | y b]; simpl; intros H;
    try reflexivity; try discriminate.
  f_equal. apply IH. now injection H.
Qed.

(** With a delay line of at least one cell the loop runs to its end and
    keeps the sizes of both arrays. *)
Lemma karplus_strong_loop_returns (period : nat) (indices : list nat)
    (buffer output : list R) :
  period <> 0%nat ->
  exists buffer' output',
    for_each indices (karplus_strong_step period) (buffer, output)
      = Returned (buffer', output')
    /\ length buffer' = length buffer
    /\ length output' = length output.
Proof.
  intros Hp. revert buffer output.
  induction indices as [ | i rest IH]; intros buffer output.
  - exists buffer, output. simpl. auto.
  - destruct period as [ | p]; [contradiction | ].
    cbn [for_each karplus_strong_step bind].
    match goal with
    | |- context [for_each rest _ (?b, ?o)] =>
        destruct (IH b o) as (b' & o' & Hrun & Hb & Ho)
    end.
    exists b', o'. split; [exact Hrun | ].
    rewrite Hb, Ho, !setitem_length. auto.
Qed.

(** With an empty delay line the first pass already divides by zero. *)
Lemma karplus_strong_loop_raises (n : nat) (st : list R * list R) :
  n <> 0%nat ->
  for_each (seq 0 n) (karplus_strong_step 0) st = Raised ZeroDivisionError.
Proof.
  intros Hn. destruct n as [ | n]; [contradiction | ].
  destruct st as [buffer output]. reflexivity.
Qed.

Section Pluck.

Variable noise : nat -> R.
Variables freq duration : R.
Variable rate : Z.

Lemma generate_pluck_unavailable :
  generate_pluck false noise freq duration rate = Returned None.
Proof. reflexivity. Qed.

Lemma generate_pluck_returns :
  freq <> 0 ->
  (1 <= Py.int (IZR rate / freq))%Z ->
  (0 <= Py.int (duration * IZR rate))%Z ->
  exists wave,
    generate_pluck true noise freq duration rate = Returned (Some wave)
    /\ length wave = Z.to_nat (Py.int (duration * IZR rate)).
Proof.
  intros Hf Hp Hn. unfold generate_pluck, Py.truediv.
  cbn [negb]. destruct (Req_dec_T freq 0) as [E | _]; [contradiction | ].
  cbn [bind].
  unfold Np.random_uniform, Np.zeros.
  destruct (Z.ltb_spec (Py.int (IZR rate / freq)) 0) as [Hlt | _];
    [lia | ].
  destruct (Z.ltb_spec (Py.int (duration * IZR rate)) 0) as [Hlt | _];
    [lia | ].
  cbn [bind].
  destruct (karplus_strong_loop_returns
              (Z.to_nat (Py.int (IZR rate / freq)))
              (seq 0 (Z.to_nat (Py.int (duration * IZR rate))))
              (map noise (seq 0 (Z.to_nat (Py.int (IZR rate / freq)))))
              (repeat 0 (Z.to_nat (Py.int (duration * IZR rate)))))
    as (b' & o' & Hrun & _ & Ho); [lia | ].
  rewrite Hrun. cbn [bind snd].
  eexists. split; [reflexivity | ].
  rewrite repeat_length in Ho.
  rewrite multiply_length; [exact Ho | ].
  now rewrite Ho, length_map, linspace_length.
Qed.



Lemma generate_pluck_empty_delay_line :
  freq <> 0 ->
  Py.int (IZR rate / freq) = 0%Z ->
  (0 < Py.int (duration * IZR rate))%Z ->
  generate_pluck true noise freq duration rate
    = Raised ZeroDivisionError.
Proof.
  intros Hf Hp Hn. unfold generate_pluck, Py.truediv. cbn [negb].
  destruct (Req_dec_T freq 0) as [E | _]; [contradiction | ].
  cbn [bind]. rewrite Hp.
  unfold Np.random_uniform, Np.zeros.
  destruct (Z.ltb_spec 0 0) as [Hlt | _]; [lia | ].
  destruct (Z.ltb_spec (Py.int (duration * IZR rate)) 0) as [Hlt | _];
    [lia | ].
  cbn [bind]. change (Z.to_nat 0) with 0%nat.
  rewrite karplus_strong_loop_raises by lia. reflexivity.
Qed.

End Pluck.

(** Where the quotient [sample_rate / freq] lies, by the sign and size of
    [freq]. *)
Lemma quotient_ge_1 (a b : R) : 0 < b <= a -> 1 <= a / b.
Proof.
  intros [Hb Hab].
  assert (Hq : a / b * b = a) by (field; lra).
  generalize dependent (a / b). intros q Hq. nra.
Qed.

Lemma quotient_lt_1 (a b : R) : 0 < a < b -> 0 < a / b < 1.
Proof.
  intros [Ha Hab].
  assert (Hq : a / b * b = a) by (field; lra).
  generalize dependent (a / b). intros q Hq. nra.
Qed.

Lemma quotient_neg (a b : R) : 0 < a -> b < 0 -> a / b < 0.
Proof.
  intros Ha Hb.
  assert (Hq : a / b * b = a) by (field; lra).
  generalize dependent (a / b). intros q Hq. nra.
Qed.


(** C1 (as the code has it). With the capability flag off nothing is
    synthesized: [generate_pluck] returns [None] for every frequency,
    and [play_chord] and [play_click] submit nothing. *)
Theorem no_audio_no_synthesis (noise : nat -> R) (rng : nat -> nat -> R)
    (freq duration click_duration strum_delay : R) (rate : Z)
    (frets : list (option Z)) :
  generate_pluck false noise freq duration rate = Returned None
  /\ play_chord false rng frets strum_delay = Returned []
  /\ play_click false freq click_duration = Returned [].
Proof. repeat split. Qed.

(** C1 fails as stated: at 440 Hz, a positive frequency, the call made
    with the flag off returns [None], and so no waveform buffer. *)
Lemma no_audio_pluck_returns_none :
  0 < 440
  /\ generate_pluck false (fun _ => 0) 440 1.5 44100 = Returned None
  /\ ~ (exists wave,
          generate_pluck false (fun _ => 0) 440 1.5 44100
            = Returned (Some wave)).
Proof.
  split; [lra | ]. split; [reflexivity | ].
  intros [wave H]. rewrite generate_pluck_unavailable in H. discriminate.
Qed.







(** ** ChordMixer *)

Lemma fret_power_84 : powerRZ FRET_RATIO 84 = 128.
Proof.
  unfold powerRZ.
  replace (Pos.to_nat 84) with (12 * 7)%nat by reflexivity.
  rewrite pow_mult, FRET_RATIO_octave. simpl. lra.
Qed.

(** Up to fret 84 every string sounds below the sample rate. *)
Lemma get_note_freq_playable (s : string) (fret : Z) :
  In s strings -> (fret <= 84)%Z ->
  exists freq,
    get_note_freq s fret = Returned freq /\ 0 < freq <= IZR sample_rate.
Proof.
  intros Hs Hfret.
  destruct (get_note_freq_recognized s fret Hs) as (base & _ & Hb & Hfreq).
  exists (base * powerRZ FRET_RATIO fret). split; [exact Hfreq | ].
  pose proof (powerRZ_lt FRET_RATIO fret FRET_RATIO_pos) as Hpos.
  pose proof (fret_power_le fret 84 Hfret) as Hle.
  rewrite fret_power_84 in Hle. unfold sample_rate. nra.
Qed.

Lemma n_samples_of_chord : Py.int (duration * IZR sample_rate) = 88200%Z.
Proof.
  unfold duration, sample_rate.
  replace (2.0 * IZR 44100) with (IZR 88200) by lra.
  apply int_of_IZR.
Qed.

(** Every voice of a chord is 2 s long at 44100 samples per second. *)
Lemma pluck_of_chord (noise : nat -> R) (freq : R) :
  0 < freq <= IZR sample_rate ->
  exists wave,
    generate_pluck true noise freq duration sample_rate = Returned (Some wave)
    /\ Z.of_nat (length wave) = 88200%Z.
Proof.
  intros Hf.
  destruct (generate_pluck_returns noise freq duration sample_rate)
    as (wave & Hw & Hlen).
  - lra.
  - apply int_ge_1, quotient_ge_1. exact Hf.
  - rewrite n_samples_of_chord. lia.
  - exists wave. split; [exact Hw | ].
    rewrite n_samples_of_chord in Hlen. lia.
Qed.

Lemma firstn_repeat_prefix {A : Type} (x : A) (n m : nat) :
  firstn n (repeat x (n + m)) = repeat x n.
Proof. induction n as [ | n IH]; simpl; [reflexivity | now rewrite IH]. Qed.

(** Writing the wave after [delay] cells of a zeroed array that has
    exactly the room for it. *)
Lemma assign_from_padding (wave : list R) (delay : Z) :
  (0 <= delay)%Z ->
  assign_from (repeat 0 (Z.to_nat (Z.of_nat (length wave) + delay)))
    delay wave
  = Returned (repeat 0 (Z.to_nat delay) ++ wave).
Proof.
  intros Hd. unfold assign_from. rewrite repeat_length.
  destruct (Z.ltb_spec delay 0) as [Hlt | _]; [lia | ].
  rewrite Z2Nat.id by lia.
  rewrite Z.min_l by lia.
  replace (Z.to_nat (Z.of_nat (length wave) + delay - delay))
    with (length wave) by lia.
  rewrite Nat.eqb_refl.
  replace (Z.to_nat (Z.of_nat (length wave) + delay))
    with (Z.to_nat delay + length wave)%nat by lia.
  now rewrite firstn_repeat_prefix.
Qed.

Lemma delay_samples_nonneg (i : nat) (strum_delay : R) :
  0 <= strum_delay ->
  (0 <= Py.int (INR i * strum_delay * IZR sample_rate))%Z.
Proof.
  intros Hsd. apply int_nonneg.
  pose proof (pos_INR i). unfold sample_rate.
  apply Rmult_le_pos; [ | lra]. now apply Rmult_le_pos.
Qed.

(** The step of the strum loop on a muted string. *)
Lemma strum_step_muted (audio : bool) (rng : nat -> nat -> R)
    (strum_delay : R) (i : nat) (s : string) (samples : list (list R)) :
  strum_step audio rng strum_delay (i, (s, None)) samples = Returned samples.
Proof. reflexivity. Qed.

(** The step of the strum loop on a sounding string: one more voice,
    the plucked wave behind [int(i * strum_delay * sample_rate)] samples
    of silence. *)
Lemma strum_step_fretted (rng : nat -> nat -> R) (strum_delay : R)
    (i : nat) (s : string) (fret : Z) (samples : list (list R)) :
  0 <= strum_delay -> In s strings -> (fret <= 84)%Z ->
  exists freq wave,
    get_note_freq s fret = Returned freq
    /\ generate_pluck true (rng i) freq duration sample_rate
       = Returned (Some wave)
    /\ Z.of_nat (length wave) = 88200%Z
    /\ strum_step true rng strum_delay (i, (s, Some fret)) samples
       = Returned
           (samples
            ++ [repeat 0
                  (Z.to_nat (Py.int (INR i * strum_delay * IZR sample_rate)))
                ++ wave]).
Proof.
  intros Hsd Hs Hfret.
  destruct (get_note_freq_playable s fret Hs Hfret) as (freq & Hfreq & Hrange).
  destruct (pluck_of_chord (rng i) freq Hrange) as (wave & Hw & Hlen).
  exists freq, wave. repeat split; try assumption.
  unfold strum_step. rewrite Hfreq. cbn [bind]. rewrite Hw. cbn [bind].
  pose proof (delay_samples_nonneg i strum_delay Hsd) as Hd.
  unfold Np.zeros.
  destruct (Z.ltb_spec
              (Z.of_nat (length wave)
               + Py.int (INR i * strum_delay * IZR sample_rate)) 0)
    as [Hlt | _]; [lia | ].
  cbn [bind]. rewrite assign_from_padding by exact Hd. reflexivity.
Qed.

(** The strum loop over any list of (index, (string, fret)) items whose
    sounding strings are recognized and fretted no higher than 84. *)
Lemma strum_loop_returns (rng : nat -> nat -> R) (strum_delay : R)
    (items : list (nat * (string * option Z))) (acc : list (list R)) :
  0 <= strum_delay ->
  (forall i s fret,
      In (i, (s, Some fret)) items -> In s strings /\ (fret <= 84)%Z) ->
  exists voices,
    for_each items (strum_step true rng strum_delay) acc
      = Returned (acc ++ voices)
    /\ Forall (fun v => (88200 <= Z.of_nat (length v))%Z) voices
    /\ ((exists i s fret, In (i, (s, Some fret)) items) -> voices <> []).
Proof.
  intros Hsd. revert acc.
  induction items as [ | [i [s [fret | ]]] rest IH]; intros acc Hok.
  - exists []. rewrite app_nil_r. repeat split; auto.
    intros (i & s & fret & []).
  - destruct (Hok i s fret (or_introl eq_refl)) as [Hs Hfret].
    destruct (strum_step_fretted rng strum_delay i s fret acc Hsd Hs Hfret)
      as (freq & wave & _ & _ & Hlen & Hstep).
    cbn [for_each]. rewrite Hstep. cbn [bind].
    match goal with
    | |- context [for_each rest _ (acc ++ [?v])] =>
        destruct (IH (acc ++ [v])) as (voices & Hrun & Hlens & _);
        [ intros j s' f' Hin; apply (Hok j s' f'); now right | ];
        exists (v :: voices)
    end.
    rewrite Hrun, <- app_assoc. repeat split; try discriminate.
    constructor; [ | exact Hlens].
    rewrite length_app. lia.
  - cbn [for_each]. rewrite strum_step_muted. cbn [bind].
    destruct (IH acc) as (voices & Hrun & Hlens & Hne).
    { intros j s' f' Hin. apply (Hok j s' f'). now right. }
    exists voices. repeat split; try assumption.
    intros (j & s' & f' & [Heq | Hin]); [discriminate | ].
    apply Hne. now exists j, s', f'.
Qed.

Lemma enumerate_in {A : Type} (xs : list A) (x : A) :
  In x xs -> exists i, In (i, x) (Py.enumerate xs).
Proof.
  unfold Py.enumerate. generalize 0%nat.
  induction xs as [ | y ys IH]; intros k Hin; [contradiction | ].
  destruct Hin as [-> | Hin].
  - exists k. now left.
  - destruct (IH (S k) Hin) as [i Hi]. exists i. now right.
Qed.

Lemma enumerate_item {A : Type} (xs : list A) (i : nat) (x : A) :
  In (i, x) (Py.enumerate xs) -> In x xs.
Proof. unfold Py.enumerate. apply in_combine_r. Qed.

(** Muted strings add no voice, whatever the flag. *)
Lemma strum_loop_muted (audio : bool) (rng : nat -> nat -> R)
    (strum_delay : R) (items : list (nat * (string * option Z)))
    (acc : list (list R)) :
  (forall i s fret, ~ In (i, (s, Some fret)) items) ->
  for_each items (strum_step audio rng strum_delay) acc = Returned acc.
Proof.
  induction items as [ | [i [s [fret | ]]] rest IH]; intros Hmuted.
  - reflexivity.
  - exfalso. apply (Hmuted i s fret). now left.
  - cbn [for_each]. rewrite strum_step_muted. cbn [bind].
    apply IH. intros j s' f' Hin. apply (Hmuted j s' f'). now right.
Qed.

Lemma add_prefix_length (mixed s : list R) :
  length (Np.add_prefix mixed s) = length mixed.
Proof.
  revert s. induction mixed as [ | x mixed IH]; intros [ | y s]; simpl; auto.
Qed.

Lemma mix_length (samples : list (list R)) :
  length (mix samples) = list_max (map (@length R) samples).
Proof.
  unfold mix. generalize (list_max (map (@length R) samples)). intros n.
  rewrite <- (repeat_length 0 n) at 2.
  generalize (repeat 0 n).
  induction samples as [ | s samples IH]; intros mixed; simpl; [reflexivity | ].
  now rewrite IH, add_prefix_length.
Qed.

Lemma mix_covers (samples : list (list R)) (v : list R) :
  In v samples -> (length v <= length (mix samples))%nat.
Proof.
  intros Hin. rewrite mix_length.
  pose proof (proj1 (list_max_le (map (@length R) samples) _) (le_n _)) as Hall.
  rewrite Forall_forall in Hall. apply Hall. now apply in_map.
Qed.





Lemma normalize_returns (mixed : list R) :
  mixed <> [] -> exists out, normalize mixed = Returned out.
Proof.
  destruct mixed as [ | m mixed]; [contradiction | ].
  intros _. unfold normalize. simpl. eexists. reflexivity.
Qed.

(** A sounding string among the six gives the strum loop a voice, and
    every voice has at least the 88200 samples of its wave. *)
Lemma strum_returns (rng : nat -> nat -> R) (frets : list (option Z))
    (strum_delay : R) :
  0 <= strum_delay ->
  (forall fret, In (Some fret) frets -> (fret <= 84)%Z) ->
  exists samples,
    strum true rng frets strum_delay = Returned samples
    /\ Forall (fun v => (88200 <= Z.of_nat (length v))%Z) samples
    /\ ((exists s fret, In (s, Some fret) (combine strings frets)) ->
        samples <> []).
Proof.
  intros Hsd Hfrets. unfold strum.
  destruct (strum_loop_returns rng strum_delay
              (Py.enumerate (combine strings frets)) [] Hsd)
    as (voices & Hrun & Hlens & Hne).
  - intros i s fret Hin. apply enumerate_item in Hin. split.
    + now apply in_combine_l in Hin.
    + apply Hfrets. now apply in_combine_r in Hin.
  - exists voices. repeat split; try assumption.
    intros (s & fret & Hin). apply Hne.
    destruct (enumerate_in _ _ Hin) as [i Hi]. now exists i, s, fret.
Qed.


Lemma play_chord_submits (rng : nat -> nat -> R) (frets : list (option Z))
    (strum_delay : R) :
  0 <= strum_delay ->
  (forall fret, In (Some fret) frets -> (fret <= 84)%Z) ->
  (exists s fret, In (s, Some fret) (combine strings frets)) ->
  exists buffer,
    play_chord true rng frets strum_delay = Returned [(buffer, sample_rate)].
Proof.
  intros Hsd Hfrets Hsome.
  destruct (strum_returns rng frets strum_delay Hsd Hfrets)
    as (samples & Hstrum & Hlens & Hne).
  specialize (Hne Hsome).
  unfold play_chord. cbn [negb]. rewrite Hstrum. cbn [bind].
  destruct samples as [ | v samples]; [contradiction | ].
  destruct (normalize_returns (mix (v :: samples))) as [out Hout].
  - pose proof (mix_covers (v :: samples) v (or_introl eq_refl)) as Hcov.
    apply Forall_inv in Hlens.
    intros Hnil. rewrite Hnil in Hcov. simpl in Hcov. lia.
  - exists out. rewrite Hout. reflexivity.
Qed.



(** C7. With all six strings muted [play_chord] does nothing: the strum
    loop collects no voice, no buffer is mixed, nothing is submitted. *)
Theorem play_chord_all_muted (audio : bool) (rng : nat -> nat -> R)
    (strum_delay : R) :
  strum audio rng all_muted strum_delay = Returned []
  /\ play_chord audio rng all_muted strum_delay = Returned [].
Proof.
  assert (Hstrum : strum audio rng all_muted strum_delay = Returned []).
  { unfold strum. apply strum_loop_muted.
    intros i s fret Hin. apply enumerate_item in Hin.
    apply in_combine_r in Hin. unfold all_muted in Hin. simpl in Hin.
    repeat (destruct Hin as [Hin | Hin]; [discriminate | ]).
    contradiction. }
  split; [exact Hstrum | ].
  unfold play_chord. destruct audio; cbn [negb]; [ | reflexivity].
  rewrite Hstrum. reflexivity.
Qed.

(** A positive real whose [n]-th power is 2 lies between two rationals
    whose [n]-th powers lie on either side of 2. *)
Lemma root_of_two_between (y lo hi : R) (n : nat) :
  0 < y -> y ^ n = 2 -> 0 <= lo -> lo ^ n < 2 -> 0 <= hi -> 2 < hi ^ n ->
  lo < y < hi.
Proof.
  intros Hy Hyn Hlo Hlon Hhi Hhin. split.
  - destruct (Rlt_dec lo y) as [Hlt | Hge]; [exact Hlt | exfalso].
    assert (H : y ^ n <= lo ^ n) by (apply pow_incr; lra). lra.
  - destruct (Rlt_dec y hi) as [Hlt | Hge]; [exact Hlt | exfalso].
    assert (H : hi ^ n <= y ^ n) by (apply pow_incr; lra). lra.
Qed.









(** ** MetronomeScheduler *)

Lemma set_bpm_clamps (self : Metronome.t) (b : Z) :
  (40 <= Metronome.bpm (Metronome.set_bpm self b) <= 200)%Z.
Proof. unfold Metronome.set_bpm. simpl. lia. Qed.

(** [start] and [stop] leave the tempo alone. *)
Lemma start_stop_keep_bpm (self : Metronome.t) (cb : option Callback)
    (fresh : Thread) :
  Metronome.bpm (Metronome.start self cb fresh) = Metronome.bpm self
  /\ Metronome.bpm (Metronome.stop self) = Metronome.bpm self.
Proof.
  unfold Metronome.start, Metronome.stop.
  destruct (Metronome._running self); auto.
Qed.

(** C3 (where the code departs from it). [set_bpm] clamps: 10 is stored
    as 40, 500 as 200, and whatever it stores lies in [40, 200]. The
    constructor does not: [Metronome(500)] holds a tempo of 500, and
    [Metronome(0)] a tempo of 0, on which the first pass of the loop
    dies dividing by zero. *)
Theorem metronome_init_unclamped :
  Metronome.bpm (Metronome.__init__ 500) = 500%Z
  /\ ~ (40 <= Metronome.bpm (Metronome.__init__ 500) <= 200)%Z
  /\ (forall self,
         Metronome.bpm (Metronome.set_bpm self 10) = 40%Z
         /\ Metronome.bpm (Metronome.set_bpm self 500) = 200%Z)
  /\ (forall self b,
         (40 <= Metronome.bpm (Metronome.set_bpm self b) <= 200)%Z)
  /\ Metronome._run
       [Metronome.start (Metronome.__init__ 0) None 1%nat] 0
     = [(0%Z, [PlayClick 1200; ThreadDied ZeroDivisionError])].
Proof.
  split; [reflexivity | ].
  split; [simpl; lia | ].
  split; [intros self; split; reflexivity | ].
  split; [apply set_bpm_clamps | ].
  unfold Metronome._run, Metronome.sleep_period, Py.truediv. simpl.
  destruct (Req_dec_T 0 0) as [_ | Hne]; [reflexivity | contradiction].
Qed.

(** C10. [set_bpm] writes the tempo and nothing else: the running flag,
    the thread handle and the callback are as before, in every state of
    the object; as a total function it always returns. *)
Theorem set_bpm_frame (self : Metronome.t) (b : Z) :
  Metronome._running (Metronome.set_bpm self b) = Metronome._running self
  /\ Metronome._thread (Metronome.set_bpm self b) = Metronome._thread self
  /\ Metronome._beat_callback (Metronome.set_bpm self b)
     = Metronome._beat_callback self
  /\ Metronome.is_running (Metronome.set_bpm self b)
     = Metronome.is_running self
  /\ Metronome.set_bpm self b
     = Metronome.mk (Z.max 40 (Z.min 200 b)) (Metronome._running self)
         (Metronome._thread self) (Metronome._beat_callback self).
Proof. repeat split. Qed.

Lemma sleep_period_returns (self : Metronome.t) :
  (0 < Metronome.bpm self)%Z ->
  exists seconds, Metronome.sleep_period self = Returned seconds.
Proof.
  intros Hbpm. apply IZR_lt in Hbpm.
  unfold Metronome.sleep_period, Py.truediv.
  destruct (Req_dec_T (IZR (Metronome.bpm self)) 0) as [E | _]; [lra | ].
  cbn [bind].
  destruct (Rlt_dec (60.0 / IZR (Metronome.bpm self)) 0) as [Hneg | _].
  - exfalso.
    assert (0 < 60.0 / IZR (Metronome.bpm self))
      by (apply Rdiv_lt_0_compat; lra).
    lra.
  - eexists. reflexivity.
Qed.

(** The beat counter stays in 0..3 and advances by one modulo 4. *)
Lemma beat_advance (b : Z) (k : nat) :
  (((b + Z.of_nat k) mod 4 + 1) mod 4 = (b + Z.of_nat (S k)) mod 4)%Z.
Proof.
  rewrite Nat2Z.inj_succ.
  replace (b + Z.succ (Z.of_nat k))%Z with (b + Z.of_nat k + 1)%Z by lia.
  rewrite Z.add_mod_idemp_l by lia. reflexivity.
Qed.

(** What the [k]-th pass of the loop reports, from any starting beat. *)
Lemma run_pass (observed : list Metronome.t) :
  forall (b : Z) (k : nat) (beat : Z) (events : list Event),
    (0 <= b < 4)%Z ->
    nth_error (Metronome._run observed b) k = Some (beat, events) ->
    beat = ((b + Z.of_nat k) mod 4)%Z
    /\ exists self last,
         nth_error observed k = Some self
         /\ Metronome._running self = true
         /\ events
            = PlayClick (if (beat =? 0)%Z then 1200 else 800)
                :: match Metronome._beat_callback self with
                   | Some callback => [BeatCallback callback]
                   | None => []
                   end
                ++ [last]
         /\ ((exists seconds,
                 Metronome.sleep_period self = Returned seconds
                 /\ last = Sleep seconds)
             \/ (exists e,
                    Metronome.sleep_period self = Raised e
                    /\ last = ThreadDied e)).
Proof.
  induction observed as [ | self later IH]; intros b k beat events Hb Hnth.
  - destruct k; discriminate.
  - cbn [Metronome._run] in Hnth.
    destruct (Metronome._running self) eqn:Hrun; [ | destruct k; discriminate].
    destruct (Metronome.sleep_period self) as [seconds | e] eqn:Hsleep.
    + destruct k as [ | k].
      * cbn [nth_error] in Hnth. injection Hnth as Hbeat Hev.
        split; [rewrite <- Hbeat, Z.add_0_r, Z.mod_small; lia | ].
        exists self, (Sleep seconds). rewrite <- Hbeat, <- Hev.
        repeat split; auto. left. now exists seconds.
      * cbn [nth_error] in Hnth.
        apply IH in Hnth; [ | apply Z.mod_pos_bound; lia].
        destruct Hnth as [Hbeat Hrest]. split; [ | exact Hrest].
        rewrite Hbeat.
        rewrite <- (Z.mod_small b 4) at 1 by lia.
        replace (b mod 4)%Z with ((b + Z.of_nat 0) mod 4)%Z
          by (f_equal; lia).
        rewrite beat_advance.
        rewrite Z.add_mod_idemp_l by lia. f_equal. lia.
    + destruct k as [ | [ | k]]; try discriminate.
      cbn [nth_error] in Hnth. injection Hnth as Hbeat Hev.
      split; [rewrite <- Hbeat, Z.add_0_r, Z.mod_small; lia | ].
      exists self, (ThreadDied e). rewrite <- Hbeat, <- Hev.
      repeat split; auto. right. now exists e.
Qed.

(** As long as the loop finds the flag on and a positive tempo, it
    makes a pass. *)
Lemma run_passes (observed : list Metronome.t) :
  forall (b : Z) (n : nat),
    (n <= length observed)%nat ->
    (forall self, In self (firstn n observed) ->
                  Metronome._running self = true
                  /\ (0 < Metronome.bpm self)%Z) ->
    (n <= length (Metronome._run observed b))%nat.
Proof.
  induction observed as [ | self later IH]; intros b n Hn Hon.
  - simpl in Hn. lia.
  - destruct n as [ | n]; [lia | ].
    destruct (Hon self (or_introl eq_refl)) as [Hrun Hbpm].
    destruct (sleep_period_returns self Hbpm) as [seconds Hsleep].
    cbn [Metronome._run]. rewrite Hrun, Hsleep. cbn [length].
    apply le_n_S. apply IH.
    + simpl in Hn. lia.
    + intros self' Hin. apply Hon. now right.
Qed.

(** C8. While the loop finds the metronome running (with a positive
    tempo), it makes pass after pass; the [k]-th pass carries the beat
    [k mod 4], so the beats cycle 0,1,2,3,0,1,...; it clicks at 1200 Hz
    exactly when that beat is 0 and at 800 Hz otherwise; and it invokes
    the callback, if there is one, once, between the click and the
    sleep. *)
Theorem run_beats_cycle (observed : list Metronome.t) (n : nat) :
  (n <= length observed)%nat ->
  (forall self, In self (firstn n observed) ->
                Metronome._running self = true
                /\ (0 < Metronome.bpm self)%Z) ->
  (n <= length (Metronome._run observed 0))%nat
  /\ forall k beat events,
       nth_error (Metronome._run observed 0) k = Some (beat, events) ->
       beat = (Z.of_nat k mod 4)%Z
       /\ exists self last,
            nth_error observed k = Some self
            /\ (forall callback, last <> BeatCallback callback)
            /\ match Metronome._beat_callback self with
               | Some callback =>
                   events
                   = [PlayClick (if (Z.of_nat k mod 4 =? 0)%Z
                                 then 1200 else 800);
                      BeatCallback callback; last]
               | None =>
                   events
                   = [PlayClick (if (Z.of_nat k mod 4 =? 0)%Z
                                 then 1200 else 800);
                      last]
               end.
Proof.
  intros Hn Hon. split; [now apply run_passes | ].
  intros k beat events Hnth.
  apply run_pass in Hnth; [ | lia].
  destruct Hnth as (Hbeat & self & last & Hself & _ & Hev & Hlast).
  rewrite Z.add_0_l in Hbeat. split; [exact Hbeat | ].
  exists self, last. split; [exact Hself | ]. split.
  - intros callback.
    destruct Hlast as [(s & _ & ->) | (e & _ & ->)]; discriminate.
  - rewrite <- Hbeat, Hev.
    destruct (Metronome._beat_callback self); reflexivity.
Qed.

Lemma run_beats_cycle_witness :
  (5 <= length
          (Metronome._run
             (repeat
                (Metronome.start (Metronome.__init__ 80) (Some 7%nat) 1%nat)
                5)
             0))%nat
  /\ (forall beat events,
         nth_error
           (Metronome._run
              (repeat
                 (Metronome.start (Metronome.__init__ 80) (Some 7%nat) 1%nat)
                 5)
              0)
           4
         = Some (beat, events) ->
         beat = 0%Z).
Proof.
  destruct (run_beats_cycle
              (repeat
                 (Metronome.start (Metronome.__init__ 80) (Some 7%nat) 1%nat)
                 5)
              5) as [Hlen Hpass].
  - simpl. lia.
  - intros self Hin. simpl in Hin.
    repeat (destruct Hin as [<- | Hin]; [split; [reflexivity | simpl; lia] | ]).
    contradiction.
  - split; [exact Hlen | ].
    intros beat events Hnth.
    destruct (Hpass 4%nat beat events Hnth) as [Hbeat _].
    exact Hbeat.
Defined.

(** * Further properties of the audio engine *)

(** ** The click *)






(** X2. A click of negative length is refused: when
    [int(44100 * duration)] is negative, [np.linspace] raises
    [ValueError] and nothing is submitted. *)
Theorem play_click_negative (freq click_duration : R) :
  click_duration * IZR sample_rate <= -1 ->
  play_click true freq click_duration = Raised ValueError.
Proof.
  intros Hd. unfold play_click. cbn [negb].
  assert (Hn : (Py.int (IZR sample_rate * click_duration) < 0)%Z)
    by (apply int_neg; lra).
  destruct (Z.ltb_spec (Py.int (IZR sample_rate * click_duration)) 0)
    as [_ | Hge]; [reflexivity | lia].
Qed.

Lemma play_click_negative_witness :
  play_click true 1000 (-1) = Raised ValueError.
Proof. apply play_click_negative. unfold sample_rate. lra. Defined.

(** ** The Karplus-Strong synthesizer *)





















(** X6. A negative sample count is always refused: when
    [int(duration * sample_rate)] is negative the call raises, whatever
    the frequency ([ZeroDivisionError] at frequency 0, [ValueError]
    otherwise). *)
Theorem generate_pluck_negative_samples (noise : nat -> R) (freq dur : R)
    (rate : Z) :
  (Py.int (dur * IZR rate) < 0)%Z ->
  generate_pluck true noise freq dur rate
  = Raised (if Req_dec_T freq 0 then ZeroDivisionError else ValueError).
Proof.
  intros Hn. unfold generate_pluck, Py.truediv. cbn [negb].
  destruct (Req_dec_T freq 0) as [E | _]; [reflexivity | ].
  cbn [bind]. unfold Np.random_uniform, Np.zeros.
  destruct (Z.ltb_spec (Py.int (IZR rate / freq)) 0) as [Hlt | _];
    [reflexivity | ].
  cbn [bind].
  destruct (Z.ltb_spec (Py.int (dur * IZR rate)) 0) as [_ | Hge];
    [reflexivity | lia].
Qed.

Lemma generate_pluck_negative_samples_witness :
  generate_pluck true (fun _ => 0) 440 (-1) 44100
  = Raised (if Req_dec_T 440 0 then ZeroDivisionError else ValueError).
Proof.
  apply generate_pluck_negative_samples. apply int_neg. lra.
Defined.

(** ** The chord mixer *)

Lemma nth_add_prefix (mixed s : list R) (k : nat) :
  (length s <= length mixed)%nat ->
  nth k (Np.add_prefix mixed s) 0 = nth k mixed 0 + nth k s 0.
Proof.
  revert s k. induction mixed as [ | x mixed IH]; intros [ | y s] k Hlen;
    simpl in *; try lia.
  - destruct k; lra.
  - destruct k; lra.
  - destruct k as [ | k]; [reflexivity | ]. apply IH. lia.
Qed.

Lemma nth_mix_from (samples : list (list R)) :
  forall (mixed : list R) (k : nat),
    Forall (fun s => (length s <= length mixed)%nat) samples ->
    nth k (fold_left Np.add_prefix samples mixed) 0
    = nth k mixed 0 + fold_right Rplus 0 (map (fun s => nth k s 0) samples).
Proof.
  induction samples as [ | s samples IH]; intros mixed k Hall.
  - simpl. lra.
  - apply Forall_cons_iff in Hall. destruct Hall as [Hs Hall].
    cbn [fold_left map fold_right]. rewrite IH.
    + rewrite nth_add_prefix by exact Hs. lra.
    + rewrite add_prefix_length. exact Hall.
Qed.

(** X7. The mix is the sample-wise sum of the padded voices: at every
    position its value is the sum of the values the voices have there,
    a voice counting for 0 beyond its end. *)
Theorem mix_is_sum (samples : list (list R)) (k : nat) :
  nth k (mix samples) 0
  = fold_right Rplus 0 (map (fun s => nth k s 0) samples).
Proof.
  unfold mix. rewrite nth_mix_from.
  - rewrite nth_repeat. lra.
  - rewrite repeat_length.
    pose proof (proj1 (list_max_le (map (@length R) samples) _) (le_n _))
      as Hall.
    rewrite Forall_forall in Hall. rewrite Forall_forall.
    intros s Hs. apply Hall. now apply in_map.
Qed.

Lemma combine_ignores_rest {A B : Type} (xs : list A) (ys rest : list B) :
  (length xs <= length ys)%nat ->
  combine xs (ys ++ rest) = combine xs ys.
Proof.
  revert ys. induction xs as [ | x xs IH]; intros [ | y ys] Hlen;
    simpl in *; try reflexivity; try lia.
  f_equal. apply IH. lia.
Qed.

(** X8. Only the first six frets count: entries after the sixth are
    dropped by the [zip] with the six strings, so the call does the same
    with or without them. *)
Theorem play_chord_ignores_extra_frets (audio : bool)
    (rng : nat -> nat -> R) (frets rest : list (option Z))
    (strum_delay : R) :
  (6 <= length frets)%nat ->
  play_chord audio rng (frets ++ rest) strum_delay
  = play_chord audio rng frets strum_delay.
Proof.
  intros Hlen. unfold play_chord, strum.
  rewrite combine_ignores_rest by exact Hlen. reflexivity.
Qed.

Lemma play_chord_ignores_extra_frets_witness :
  play_chord true (fun _ _ => 0) (chord_G ++ [Some 7%Z]) 0.03
  = play_chord true (fun _ _ => 0) chord_G 0.03.
Proof.
  apply (play_chord_ignores_extra_frets true (fun _ _ => 0) chord_G).
  simpl. lia.
Defined.

(** A pitch above the sample rate makes the step of its string raise. *)
Lemma strum_step_too_high (rng : nat -> nat -> R) (strum_delay : R)
    (i : nat) (s : string) (fret : Z) (freq : R) (samples : list (list R)) :
  get_note_freq s fret = Returned freq ->
  IZR sample_rate < freq ->
  strum_step true rng strum_delay (i, (s, Some fret)) samples
  = Raised ZeroDivisionError.
Proof.
  intros Hfreq Hhigh. unfold strum_step. rewrite Hfreq. cbn [bind].
  rewrite generate_pluck_empty_delay_line; [reflexivity | | | ].
  - unfold sample_rate in Hhigh. lra.
  - apply int_small.
    assert (0 < IZR sample_rate / freq < 1)
      by (apply quotient_lt_1; unfold sample_rate in *; lra).
    lra.
  - rewrite n_samples_of_chord. lia.
Qed.

Lemma for_each_raises_at {S A : Type} (body : A -> S -> outcome S)
    (xs : list A) (x : A) :
  In x xs ->
  (forall s, exists e, body x s = Raised e) ->
  forall s, exists e, for_each xs body s = Raised e.
Proof.
  intros Hin Hbad. induction xs as [ | y ys IH]; intros s; [contradiction | ].
  cbn [for_each]. destruct (body y s) as [s' | e] eqn:Hy.
  - cbn [bind]. destruct Hin as [-> | Hin].
    + destruct (Hbad s) as [e He]. congruence.
    + now apply IH.
  - exists e. reflexivity.
Qed.

(** X9. A sounding string fretted so high that its pitch exceeds the
    sample rate makes [play_chord] raise: the delay line of that voice
    would be empty. Nothing is submitted. *)
Theorem play_chord_pitch_too_high (rng : nat -> nat -> R)
    (frets : list (option Z)) (strum_delay : R) (s : string) (fret : Z)
    (freq : R) :
  In (s, Some fret) (combine strings frets) ->
  get_note_freq s fret = Returned freq ->
  IZR sample_rate < freq ->
  exists e, play_chord true rng frets strum_delay = Raised e.
Proof.
  intros Hin Hfreq Hhigh.
  destruct (enumerate_in _ _ Hin) as [i Hi].
  destruct (for_each_raises_at (strum_step true rng strum_delay) _ _ Hi)
    with (s := @nil (list R)) as [e He].
  - intros samples. exists ZeroDivisionError.
    now apply (strum_step_too_high rng strum_delay i s fret freq).
  - exists e. unfold play_chord, strum. cbn [negb]. rewrite He. reflexivity.
Qed.

Lemma semitone_ratio_lower : 1.0594 < powerRZ FRET_RATIO 1.
Proof.
  apply (root_of_two_between _ 1.0594 2 12).
  - apply powerRZ_lt, FRET_RATIO_pos.
  - rewrite powerRZ_1. apply FRET_RATIO_octave.
  - lra.
  - simpl. lra.
  - lra.
  - simpl. lra.
Qed.

Lemma play_chord_pitch_too_high_witness :
  exists e,
    play_chord true (fun _ _ => 0) [None; None; None; None; None; Some 85%Z]
      0.03
    = Raised e.
Proof.
  apply (play_chord_pitch_too_high (fun _ _ => 0) _ 0.03 "e" 85
           (329.63 * powerRZ FRET_RATIO 85)).
  - simpl. tauto.
  - reflexivity.
  - replace 85%Z with (84 + 1)%Z by reflexivity.
    rewrite powerRZ_add by (apply Rgt_not_eq, FRET_RATIO_pos).
    rewrite fret_power_84. pose proof semitone_ratio_lower.
    unfold sample_rate. lra.
Defined.









(** The step of a sounding string whose delay is not negative. *)
Lemma strum_step_delayed (rng : nat -> nat -> R) (strum_delay : R)
    (i : nat) (s : string) (fret : Z) (samples : list (list R)) :
  (0 <= Py.int (INR i * strum_delay * IZR sample_rate))%Z ->
  In s strings -> (fret <= 84)%Z ->
  exists out,
    strum_step true rng strum_delay (i, (s, Some fret)) samples = Returned out.
Proof.
  intros Hd Hs Hfret.
  destruct (get_note_freq_playable s fret Hs Hfret) as (freq & Hfreq & Hrange).
  destruct (pluck_of_chord (rng i) freq Hrange) as (wave & Hw & Hlen).
  unfold strum_step. rewrite Hfreq. cbn [bind]. rewrite Hw. cbn [bind].
  unfold Np.zeros.
  destruct (Z.ltb_spec
              (Z.of_nat (length wave)
               + Py.int (INR i * strum_delay * IZR sample_rate)) 0)
    as [Hlt | _]; [lia | ].
  cbn [bind]. rewrite assign_from_padding by exact Hd.
  eexists. reflexivity.
Qed.

(** The step of a sounding string whose delay is negative: either the
    padded array would have a negative size, or the wave does not fit
    the slice it is assigned to. *)
Lemma strum_step_negative_delay (rng : nat -> nat -> R) (strum_delay : R)
    (i : nat) (s : string) (fret : Z) (samples : list (list R)) :
  (Py.int (INR i * strum_delay * IZR sample_rate) < 0)%Z ->
  In s strings -> (fret <= 84)%Z ->
  strum_step true rng strum_delay (i, (s, Some fret)) samples
  = Raised ValueError.
Proof.
  intros Hd Hs Hfret.
  destruct (get_note_freq_playable s fret Hs Hfret) as (freq & Hfreq & Hrange).
  destruct (pluck_of_chord (rng i) freq Hrange) as (wave & Hw & Hlen).
  unfold strum_step. rewrite Hfreq. cbn [bind]. rewrite Hw. cbn [bind].
  generalize dependent (Py.int (INR i * strum_delay * IZR sample_rate)).
  intros d Hd. unfold Np.zeros.
  destruct (Z.ltb_spec (Z.of_nat (length wave) + d) 0) as [Hlt | Hge];
    [reflexivity | ].
  cbn [bind]. unfold assign_from. rewrite repeat_length.
  destruct (Z.ltb_spec d 0) as [_ | Hpos]; [ | lia].
  destruct (Nat.eqb_spec (length wave)
              (Z.to_nat
                 (Z.of_nat (Z.to_nat (Z.of_nat (length wave) + d))
                  - Z.max 0
                      (Z.of_nat (Z.to_nat (Z.of_nat (length wave) + d)) + d))))
    as [Heq | _]; [lia | ].
  destruct wave as [ | w [ | w' wave]]; try reflexivity.
  simpl in Hlen. lia.
Qed.

Lemma enumerate_nth_error {A : Type} (xs : list A) (i : nat) (x : A) :
  nth_error xs i = Some x -> In (i, x) (Py.enumerate xs).
Proof.
  unfold Py.enumerate. change i with (0 + i)%nat at 2. generalize 0%nat.
  revert i. induction xs as [ | y ys IH]; intros [ | i] k Hnth;
    try discriminate.
  - left. simpl in Hnth. rewrite Nat.add_0_r. congruence.
  - right. replace (k + S i)%nat with (S k + i)%nat by lia.
    apply IH. exact Hnth.
Qed.

Lemma combine_nth_error {A B : Type} (xs : list A) (ys : list B) (i : nat)
    (y : B) :
  nth_error ys i = Some y -> (i < length xs)%nat ->
  exists x, nth_error (combine xs ys) i = Some (x, y).
Proof.
  revert ys i. induction xs as [ | x xs IH]; intros [ | y' ys] [ | i] Hy Hi;
    simpl in *; try discriminate; try lia.
  - exists x. congruence.
  - apply IH; [exact Hy | lia].
Qed.

Lemma strum_loop_negative_delay (rng : nat -> nat -> R) (strum_delay : R)
    (items : list (nat * (string * option Z))) :
  strum_delay * IZR sample_rate <= -1 ->
  (forall i s fret,
      In (i, (s, Some fret)) items -> In s strings /\ (fret <= 84)%Z) ->
  (exists i s fret, (1 <= i)%nat /\ In (i, (s, Some fret)) items) ->
  forall acc,
    for_each items (strum_step true rng strum_delay) acc = Raised ValueError.
Proof.
  intros Hsd. induction items as [ | [i [s [fret | ]]] rest IH];
    intros Hok Hbad acc.
  - destruct Hbad as (i & s & fret & _ & []).
  - destruct (Hok i s fret (or_introl eq_refl)) as [Hs Hfret].
    cbn [for_each]. destruct i as [ | i].
    + destruct (strum_step_delayed rng strum_delay 0 s fret acc)
        as [out Hout]; try assumption.
      { replace (INR 0 * strum_delay * IZR sample_rate) with (IZR 0)
          by (simpl; lra).
        rewrite int_of_IZR. lia. }
      rewrite Hout. cbn [bind]. apply IH.
      * intros j s' f' Hin. apply (Hok j s' f'). now right.
      * destruct Hbad as (j & s' & f' & Hj & [Heq | Hin]).
        -- injection Heq as <- _ _. lia.
        -- now exists j, s', f'.
    + rewrite strum_step_negative_delay; try assumption; [reflexivity | ].
      apply int_neg.
      assert (Hi : 1 <= INR (S i)) by (apply (le_INR 1); lia).
      unfold sample_rate in *. nra.
  - cbn [for_each]. rewrite strum_step_muted. cbn [bind]. apply IH.
    + intros j s' f' Hin. apply (Hok j s' f'). now right.
    + destruct Hbad as (j & s' & f' & Hj & [Heq | Hin]); [discriminate | ].
      now exists j, s', f'.
Qed.

(** X11. A negative strum delay (of a sample or more per string) is
    refused as soon as a string other than the first sounds: the padded
    array of that voice cannot take the wave, and [play_chord] raises
    [ValueError] without submitting anything. *)
Theorem play_chord_negative_strum_delay (rng : nat -> nat -> R)
    (frets : list (option Z)) (strum_delay : R) (i : nat) (fret : Z) :
  strum_delay * IZR sample_rate <= -1 ->
  (forall f, In (Some f) frets -> (f <= 84)%Z) ->
  (1 <= i < 6)%nat ->
  nth_error frets i = Some (Some fret) ->
  play_chord true rng frets strum_delay = Raised ValueError.
Proof.
  intros Hsd Hfrets Hi Hnth.
  unfold play_chord, strum. cbn [negb].
  rewrite strum_loop_negative_delay; try assumption; [reflexivity | | ].
  - intros j s f Hin. apply enumerate_item in Hin. split.
    + now apply in_combine_l in Hin.
    + apply Hfrets. now apply in_combine_r in Hin.
  - destruct (combine_nth_error strings frets i (Some fret) Hnth)
      as [s Hs]; [simpl; lia | ].
    exists i, s, fret. split; [lia | ]. now apply enumerate_nth_error.
Qed.

Lemma play_chord_negative_strum_delay_witness :
  play_chord true (fun _ _ => 0) chord_G (-0.03) = Raised ValueError.
Proof.
  apply (play_chord_negative_strum_delay (fun _ _ => 0) chord_G (-0.03)
           1 2).
  - unfold sample_rate. lra.
  - unfold chord_G. simpl. intros fret Hin.
    repeat (destruct Hin as [Hin | Hin];
            [ injection Hin as <-; lia | ]).
    contradiction.
  - lia.
  - reflexivity.
Defined.

(** ** The metronome *)

(** X12. [start] on a running metronome does nothing: a second [start]
    keeps the first callback and the first thread, whatever it is given,
    and after any [start] the metronome is running. *)
Theorem start_is_idempotent (self : Metronome.t)
    (cb1 cb2 : option Callback) (t1 t2 : Thread) :
  Metronome.start (Metronome.start self cb1 t1) cb2 t2
  = Metronome.start self cb1 t1
  /\ Metronome.is_running (Metronome.start self cb1 t1) = true.
Proof.
  unfold Metronome.start, Metronome.is_running.
  destruct (Metronome._running self) eqn:Hrun; cbn; rewrite ?Hrun; auto.
Qed.

Lemma perform_keeps_thread_iff_running (self : Metronome.t)
    (call : MetronomeCall) :
  (Metronome._running self = true <-> Metronome._thread self <> None) ->
  (Metronome._running (perform self call) = true
   <-> Metronome._thread (perform self call) <> None).
Proof.
  intros Hinv. destruct call as [cb fresh | | b]; cbn [perform].
  - unfold Metronome.start.
    destruct (Metronome._running self) eqn:Hrun; [now rewrite Hrun | ].
    cbn. split; [discriminate | reflexivity].
  - cbn. split; [discriminate | intros H; now contradiction H].
  - exact Hinv.
Qed.

(** X13. The thread handle is held exactly while the metronome runs:
    after any sequence of [start], [stop] and [set_bpm] calls on a
    freshly built metronome, [_running] is true if and only if
    [_thread] is set; and if the last call was [stop], the metronome is
    not running and the loop makes no further pass once it sees that. *)
Theorem thread_held_while_running (bpm : Z) (calls : list MetronomeCall) :
  (Metronome._running (perform_all (Metronome.__init__ bpm) calls) = true
   <-> Metronome._thread (perform_all (Metronome.__init__ bpm) calls)
       <> None)
  /\ forall later beat,
       Metronome.is_running
         (perform_all (Metronome.__init__ bpm) (calls ++ [CallStop]))
       = false
       /\ Metronome._run
            (perform_all (Metronome.__init__ bpm) (calls ++ [CallStop])
             :: later)
            beat
          = [].
Proof.
  split.
  - unfold perform_all.
    assert (Hinit : Metronome._running (Metronome.__init__ bpm) = true
                    <-> Metronome._thread (Metronome.__init__ bpm) <> None).
    { cbn. split; [discriminate | intros H; now contradiction H]. }
    revert Hinit. generalize (Metronome.__init__ bpm).
    induction calls as [ | call calls IH]; intros self Hinv; [exact Hinv | ].
    cbn [fold_left]. apply IH. now apply perform_keeps_thread_iff_running.
  - intros later beat. unfold perform_all.
    rewrite fold_left_app. cbn [fold_left perform]. split; reflexivity.
Qed.

Lemma perform_keeps_range (self : Metronome.t) (call : MetronomeCall) :
  (40 <= Metronome.bpm self <= 200)%Z ->
  (40 <= Metronome.bpm (perform self call) <= 200)%Z.
Proof.
  intros Hrange. destruct call as [cb fresh | | b]; cbn [perform].
  - now rewrite (proj1 (start_stop_keep_bpm self cb fresh)).
  - exact Hrange.
  - apply set_bpm_clamps.
Qed.

Lemma perform_all_keeps_range (calls : list MetronomeCall) :
  forall self,
    (40 <= Metronome.bpm self <= 200)%Z ->
    (40 <= Metronome.bpm (perform_all self calls) <= 200)%Z.
Proof.
  unfold perform_all.
  induction calls as [ | call calls IH]; intros self Hrange; [exact Hrange | ].
  cbn [fold_left]. apply IH. now apply perform_keeps_range.
Qed.

(** X14. The tempo range is kept by every sequence of calls: if the
    tempo lies in 40..200, or if the sequence contains a [set_bpm], then
    after any sequence of [start], [stop] and [set_bpm] calls the tempo
    lies in 40..200. *)
Theorem bpm_range_is_invariant (self : Metronome.t)
    (calls : list MetronomeCall) :
  (40 <= Metronome.bpm self <= 200)%Z
  \/ (exists b, In (CallSetBpm b) calls) ->
  (40 <= Metronome.bpm (perform_all self calls) <= 200)%Z.
Proof.
  intros [Hrange | (b & Hin)]; [now apply perform_all_keeps_range | ].
  apply in_split in Hin. destruct Hin as (before & after & ->).
  unfold perform_all. rewrite fold_left_app. cbn [fold_left perform].
  apply (perform_all_keeps_range after). apply set_bpm_clamps.
Qed.

Lemma bpm_range_is_invariant_witness :
  (40 <= Metronome.bpm
           (perform_all (Metronome.__init__ 500)
              [CallStart None 1%nat; CallSetBpm 500; CallStop;
               CallStart (Some 3%nat) 2%nat])
   <= 200)%Z.
Proof.
  apply bpm_range_is_invariant. right. exists 500%Z. simpl. tauto.
Defined.

(** X15. With a tempo in 40..200 the pause between beats is
    [60 / bpm] seconds, between 0.3 s and 1.5 s, and computing it never
    fails. *)
Theorem sleep_period_in_range (self : Metronome.t) :
  (40 <= Metronome.bpm self <= 200)%Z ->
  Metronome.sleep_period self = Returned (60.0 / IZR (Metronome.bpm self))
  /\ 0.3 <= 60.0 / IZR (Metronome.bpm self) <= 1.5.
Proof.
  intros [Hlo Hhi]. apply IZR_le in Hlo, Hhi.
  assert (Hq : 60.0 / IZR (Metronome.bpm self) * IZR (Metronome.bpm self)
               = 60.0) by (field; lra).
  assert (Hbound : 0.3 <= 60.0 / IZR (Metronome.bpm self) <= 1.5).
  { generalize dependent (60.0 / IZR (Metronome.bpm self)). intros q Hq.
    split; nra. }
  split; [ | exact Hbound].
  unfold Metronome.sleep_period, Py.truediv.
  destruct (Req_dec_T (IZR (Metronome.bpm self)) 0) as [E | _]; [lra | ].
  cbn [bind].
  destruct (Rlt_dec (60.0 / IZR (Metronome.bpm self)) 0) as [Hneg | _];
    [lra | reflexivity].
Qed.

Lemma sleep_period_in_range_witness :
  Metronome.sleep_period (Metronome.set_bpm (Metronome.__init__ 80) 500)
  = Returned
      (60.0 / IZR (Metronome.bpm
                     (Metronome.set_bpm (Metronome.__init__ 80) 500)))
  /\ 0.3
     <= 60.0 / IZR (Metronome.bpm
                      (Metronome.set_bpm (Metronome.__init__ 80) 500))
     <= 1.5.
Proof. apply sleep_period_in_range. simpl. lia. Defined.

(** X16. The loop ends at the first pass that finds the flag off: if it
    finds the metronome running, with a positive tempo, at its first
    [k] passes and stopped at the next, it makes exactly [k] passes. *)
Theorem run_stops_when_flag_off (observed : list Metronome.t) :
  forall (k : nat) (beat : Z) (stopped : Metronome.t),
    (forall j self,
        (j < k)%nat -> nth_error observed j = Some self ->
        Metronome._running self = true /\ (0 < Metronome.bpm self)%Z) ->
    nth_error observed k = Some stopped ->
    Metronome._running stopped = false ->
    length (Metronome._run observed beat) = k.
Proof.
  induction observed as [ | self later IH];
    intros k beat stopped Hon Hk Hoff.
  - destruct k; discriminate.
  - destruct k as [ | k].
    + cbn [nth_error] in Hk. assert (E : self = stopped) by congruence.
      subst. cbn [Metronome._run]. rewrite Hoff. reflexivity.
    + destruct (Hon 0%nat self) as [Hrun Hbpm]; [lia | reflexivity | ].
      destruct (sleep_period_returns self Hbpm) as [seconds Hsleep].
      cbn [Metronome._run]. rewrite Hrun, Hsleep. cbn [length].
      f_equal. apply (IH k _ stopped); [ | exact Hk | exact Hoff].
      intros j self' Hj Hnth. apply (Hon (S j) self'); [lia | exact Hnth].
Qed.

Lemma run_stops_when_flag_off_witness :
  length
    (Metronome._run
       [Metronome.start (Metronome.__init__ 80) None 1%nat;
        Metronome.start (Metronome.__init__ 80) None 1%nat;
        Metronome.stop (Metronome.start (Metronome.__init__ 80) None 1%nat);
        Metronome.start (Metronome.__init__ 80) None 2%nat]
       0)
  = 2%nat.
Proof.
  apply (run_stops_when_flag_off _ 2 0
           (Metronome.stop
              (Metronome.start (Metronome.__init__ 80) None 1%nat))).
  - intros j self Hj Hnth.
    destruct j as [ | [ | j]]; [ | | lia];
      cbn [nth_error] in Hnth; injection Hnth as <-;
      (split; [reflexivity | simpl; lia]).
  - reflexivity.
  - reflexivity.
Defined.

(** X17. A tempo change takes effect at the next beat: the pass that
    finds the metronome running with a positive tempo ends by sleeping
    [60 / bpm] seconds for the tempo it finds at that pass, whatever the
    tempo was at the passes before. *)
Theorem run_sleeps_current_tempo (observed : list Metronome.t) (k : nat)
    (self : Metronome.t) :
  (forall j view,
      (j <= k)%nat -> nth_error observed j = Some view ->
      Metronome._running view = true /\ (0 < Metronome.bpm view)%Z) ->
  nth_error observed k = Some self ->
  exists beat before,
    nth_error (Metronome._run observed 0) k
    = Some (beat, before ++ [Sleep (60.0 / IZR (Metronome.bpm self))]).
Proof.
  intros Hon Hk.
  assert (Hlen : (S k <= length (Metronome._run observed 0))%nat).
  { apply run_passes.
    - apply Nat.le_succ_l. apply nth_error_Some. congruence.
    - intros view Hin. apply In_nth_error in Hin. destruct Hin as [j Hj].
      assert (Hjk : (j < S k)%nat).
      { destruct (Nat.lt_ge_cases j (S k)) as [Hlt | Hge]; [exact Hlt | ].
        rewrite nth_error_firstn in Hj.
        destruct (Nat.ltb_spec j (S k)); [lia | discriminate]. }
      rewrite nth_error_firstn in Hj.
      destruct (Nat.ltb_spec j (S k)); [ | discriminate].
      apply (Hon j view); [lia | exact Hj]. }
  destruct (nth_error (Metronome._run observed 0) k) as [[beat events] | ]
    eqn:Hpass; [ | apply nth_error_None in Hpass; lia].
  destruct (run_pass observed 0 k beat events) as (_ & view & last & Hview
                                                   & _ & Hev & Hlast);
    [lia | exact Hpass | ].
  assert (E : view = self) by congruence. subst view.
  destruct (Hon k self (le_n k) Hk) as [_ Hbpm].
  exists beat.
  eexists (PlayClick _ :: _). rewrite Hev. cbn [app]. do 4 f_equal.
  destruct Hlast as [(seconds & Hs & ->) | (e & He & ->)].
  - f_equal. revert Hs. unfold Metronome.sleep_period, Py.truediv.
    destruct (Req_dec_T (IZR (Metronome.bpm self)) 0) as [E | _];
      [discriminate | ].
    cbn [bind].
    destruct (Rlt_dec (60.0 / IZR (Metronome.bpm self)) 0);
      [discriminate | congruence].
  - destruct (sleep_period_returns self Hbpm) as [seconds Hs]. congruence.
Qed.

Lemma run_sleeps_current_tempo_witness :
  exists beat before,
    nth_error
      (Metronome._run
         [Metronome.start (Metronome.__init__ 80) None 1%nat;
          Metronome.set_bpm
            (Metronome.start (Metronome.__init__ 80) None 1%nat) 120]
         0)
      1
    = Some
        (beat,
         before
         ++ [Sleep
               (60.0
                / IZR (Metronome.bpm
                         (Metronome.set_bpm
                            (Metronome.start (Metronome.__init__ 80) None
                               1%nat)
                            120)))]).
Proof.
  apply run_sleeps_current_tempo.
  - intros j view Hj Hnth.
    destruct j as [ | [ | j]]; [ | | lia];
      cbn [nth_error] in Hnth; injection Hnth as <-;
      (split; [reflexivity | simpl; lia]).
  - reflexivity.
Defined.

(** X18. A tempo that is not positive kills the loop at its first pass:
    the thread clicks once, invokes the callback if there is one, and
    dies computing the pause ([ZeroDivisionError] for a tempo of 0,
    [ValueError] from [time.sleep] for a negative one), whatever it
    would have found later. *)
Theorem run_dies_on_bad_tempo (self : Metronome.t)
    (later : list Metronome.t) (beat : Z) :
  Metronome._running self = true ->
  (Metronome.bpm self <= 0)%Z ->
  Metronome._run (self :: later) beat
  = [(beat,
      PlayClick (if (beat =? 0)%Z then 1200 else 800)
        :: match Metronome._beat_callback self with
           | Some callback => [BeatCallback callback]
           | None => []
           end
        ++ [ThreadDied
              (if (Metronome.bpm self =? 0)%Z
               then ZeroDivisionError else ValueError)])].
Proof.
  intros Hrun Hbpm. cbn [Metronome._run]. rewrite Hrun.
  unfold Metronome.sleep_period, Py.truediv.
  destruct (Z.eqb_spec (Metronome.bpm self) 0) as [Hz | Hnz].
  - rewrite Hz.
    destruct (Req_dec_T (IZR 0) 0) as [_ | Hne]; [reflexivity | contradiction].
  - assert (Hneg : IZR (Metronome.bpm self) < 0) by (apply IZR_lt; lia).
    destruct (Req_dec_T (IZR (Metronome.bpm self)) 0) as [E | _]; [lra | ].
    cbn [bind].
    destruct (Rlt_dec (60.0 / IZR (Metronome.bpm self)) 0) as [_ | Hge];
      [reflexivity | ].
    exfalso. apply Hge. apply quotient_neg; lra.
Qed.

Lemma run_dies_on_bad_tempo_witness :
  Metronome._run
    [Metronome.start (Metronome.__init__ (-5)) (Some 4%nat) 1%nat;
     Metronome.start (Metronome.__init__ 80) None 1%nat]
    0
  = [(0%Z,
      PlayClick (if (0 =? 0)%Z then 1200 else 800)
        :: match
             Metronome._beat_callback
               (Metronome.start (Metronome.__init__ (-5)) (Some 4%nat) 1%nat)
           with
           | Some callback => [BeatCallback callback]
           | None => []
           end
        ++ [ThreadDied
              (if (Metronome.bpm
                     (Metronome.start (Metronome.__init__ (-5))
                        (Some 4%nat) 1%nat)
                   =? 0)%Z
               then ZeroDivisionError else ValueError)])].
Proof.
  apply run_dies_on_bad_tempo; [reflexivity | simpl; lia].
Defined.

(** * Properties of the chord data *)

(** ** Dicts *)

Lemma dict_get_set_same {V : Type} (d : list (string * V)) (k : string)
    (v : V) :
  dict_get (dict_set d k v) k = Returned v.
Proof.
  induction d as [ | [k' v'] rest IH]; simpl.
  - now rewrite String.eqb_refl.
  - destruct (String.eqb k k') eqn:E; simpl; rewrite E; auto.
Qed.

Lemma dict_get_set_other {V : Type} (d : list (string * V)) (k k0 : string)
    (v : V) :
  k0 <> k -> dict_get (dict_set d k v) k0 = dict_get d k0.
Proof.
  intros Hne. induction d as [ | [k' v'] rest IH]; simpl.
  - destruct (String.eqb_spec k0 k); [contradiction | reflexivity].
  - destruct (String.eqb_spec k k') as [-> | Hkk']; simpl.
    + destruct (String.eqb_spec k0 k'); [contradiction | reflexivity].
    + destruct (String.eqb_spec k0 k'); [reflexivity | exact IH].
Qed.

Lemma dict_contains_get {V : Type} (d : list (string * V)) (k : string) :
  dict_contains d k = true <-> exists v, dict_get d k = Returned v.
Proof.
  unfold dict_contains. induction d as [ | [k' v'] rest IH]; simpl.
  - split; [discriminate | intros [v H]; discriminate].
  - destruct (String.eqb k k'); simpl.
    + split; [intros _; now exists v' | reflexivity].
    + exact IH.
Qed.

Lemma dict_get_missing {V : Type} (d : list (string * V)) (k : string) :
  dict_contains d k = false -> dict_get d k = Raised KeyError.
Proof.
  unfold dict_contains. induction d as [ | [k' v'] rest IH]; simpl;
    [reflexivity | ].
  destruct (String.eqb k k'); simpl; [discriminate | exact IH].
Qed.

Lemma dict_get_In {V : Type} (d : list (string * V)) (k : string) (v : V) :
  dict_get d k = Returned v -> In (k, v) d.
Proof.
  induction d as [ | [k' v'] rest IH]; simpl; [discriminate | ].
  destruct (String.eqb_spec k k') as [-> | _].
  - intros H. left. congruence.
  - intros H. right. now apply IH.
Qed.

(** ** Grouping by category *)

Lemma filter_existsb_false {A : Type} (f : A -> bool) (l : list A) :
  existsb f l = false -> filter f l = [].
Proof.
  induction l as [ | x l IH]; [reflexivity | ].
  cbn [existsb filter]. intros H. apply orb_false_iff in H.
  destruct H as [Hx Hl]. rewrite Hx. now apply IH.
Qed.

(** One pass of the grouping loop keeps the dict in step with the chords
    seen so far: each category that has occurred maps to its chords, in
    the order they came. *)
Lemma by_category_step_spec (chord : chords.Chord.t)
    (seen : list chords.Chord.t)
    (categories : list (string * list chords.Chord.t)) :
  (forall cat,
      dict_get categories cat
      = if existsb (fun c => String.eqb (chords.Chord.category c) cat) seen
        then Returned
               (filter (fun c => String.eqb (chords.Chord.category c) cat)
                  seen)
        else Raised KeyError) ->
  exists categories',
    chords.by_category_step chord categories = Returned categories'
    /\ forall cat,
         dict_get categories' cat
         = if existsb (fun c => String.eqb (chords.Chord.category c) cat)
                (seen ++ [chord])
           then Returned
                  (filter
                     (fun c => String.eqb (chords.Chord.category c) cat)
                     (seen ++ [chord]))
           else Raised KeyError.
Proof.
  intros Hinv. unfold chords.by_category_step.
  set (here := chords.Chord.category chord).
  set (categories1 :=
         if negb (dict_contains categories here)
         then dict_set categories here []
         else categories).
  assert (Hhere :
            dict_get categories1 here
            = Returned
                (filter (fun c => String.eqb (chords.Chord.category c) here)
                   seen)).
  { unfold categories1.
    destruct (dict_contains categories here) eqn:Hc; cbn [negb].
    - apply dict_contains_get in Hc. destruct Hc as [v Hv].
      rewrite Hinv in Hv. rewrite Hinv.
      destruct (existsb _ seen); [reflexivity | discriminate].
    - rewrite dict_get_set_same.
      apply dict_get_missing in Hc. rewrite Hinv in Hc.
      destruct (existsb (fun c => String.eqb (chords.Chord.category c) here)
                  seen) eqn:Hex; [discriminate | ].
      now rewrite filter_existsb_false. }
  assert (Hother : forall cat, cat <> here ->
                               dict_get categories1 cat
                               = dict_get categories cat).
  { intros cat Hne. unfold categories1.
    destruct (dict_contains categories here); cbn [negb];
      [reflexivity | now apply dict_get_set_other]. }
  rewrite Hhere. cbn [bind]. eexists. split; [reflexivity | ].
  intros cat. rewrite existsb_app, filter_app. cbn [existsb filter].
  fold here. destruct (String.eqb_spec here cat) as [<- | Hne].
  - rewrite dict_get_set_same, orb_true_r. reflexivity.
  - rewrite dict_get_set_other by congruence.
    rewrite Hother by congruence. rewrite Hinv.
    rewrite orb_false_r, app_nil_r. reflexivity.
Qed.

Lemma by_category_loop_spec (values : list chords.Chord.t) :
  forall (seen : list chords.Chord.t)
         (categories : list (string * list chords.Chord.t)),
    (forall cat,
        dict_get categories cat
        = if existsb (fun c => String.eqb (chords.Chord.category c) cat)
               seen
          then Returned
                 (filter (fun c => String.eqb (chords.Chord.category c) cat)
                    seen)
          else Raised KeyError) ->
    exists by_cat,
      for_each values chords.by_category_step categories = Returned by_cat
      /\ forall cat,
           dict_get by_cat cat
           = if existsb (fun c => String.eqb (chords.Chord.category c) cat)
                  (seen ++ values)
             then Returned
                    (filter
                       (fun c => String.eqb (chords.Chord.category c) cat)
                       (seen ++ values))
             else Raised KeyError.
Proof.
  induction values as [ | chord values IH]; intros seen categories Hinv.
  - exists categories. rewrite app_nil_r. split; [reflexivity | exact Hinv].
  - destruct (by_category_step_spec chord seen categories Hinv)
      as (categories' & Hstep & Hinv').
    destruct (IH (seen ++ [chord]) categories' Hinv')
      as (by_cat & Hrun & Hfinal).
    exists by_cat. cbn [for_each]. rewrite Hstep. cbn [bind].
    split; [exact Hrun | ].
    intros cat. rewrite Hfinal, <- app_assoc. reflexivity.
Qed.

Lemma by_category_returns (CHORDS : list (string * chords.Chord.t)) :
  exists by_cat,
    chords.get_chords_by_category CHORDS = Returned by_cat
    /\ forall cat,
         dict_get by_cat cat
         = if existsb (fun c => String.eqb (chords.Chord.category c) cat)
                (dict_values CHORDS)
           then Returned
                  (filter
                     (fun c => String.eqb (chords.Chord.category c) cat)
                     (dict_values CHORDS))
           else Raised KeyError.
Proof.
  unfold chords.get_chords_by_category.
  apply (by_category_loop_spec (dict_values CHORDS) [] []).
  intros cat. reflexivity.
Qed.

(** X19. [get_chords_by_category] always returns, and in the dict it
    returns a category is a key exactly when some chord of the library
    has it; its value is then the list of the chords of that category,
    in library order. Looking up any other category raises
    [KeyError]. *)
Theorem get_chords_by_category_spec
    (CHORDS : list (string * chords.Chord.t)) :
  exists by_cat,
    chords.get_chords_by_category CHORDS = Returned by_cat
    /\ forall cat,
         dict_get by_cat cat
         = if existsb (fun c => String.eqb (chords.Chord.category c) cat)
                (dict_values CHORDS)
           then Returned
                  (filter
                     (fun c => String.eqb (chords.Chord.category c) cat)
                     (dict_values CHORDS))
           else Raised KeyError.
Proof.
  unfold chords.get_chords_by_category.
  destruct (by_category_loop_spec (dict_values CHORDS) [] [])
    as (by_cat & Hrun & Hspec).
  - intros cat. reflexivity.
  - exists by_cat. split; [exact Hrun | exact Hspec].
Qed.

Lemma chord_list_loop_spec (by_cat : list (string * list chords.Chord.t))
    (values : list chords.Chord.t) :
  (forall cat,
      dict_get by_cat cat
      = if existsb (fun c => String.eqb (chords.Chord.category c) cat) values
        then Returned
               (filter (fun c => String.eqb (chords.Chord.category c) cat)
                  values)
        else Raised KeyError) ->
  forall (cats : list string) (result : list chords.Chord.t),
    for_each cats
      (fun cat result =>
         if dict_contains by_cat cat then
           members <- dict_get by_cat cat ;;
           Returned (result ++ members)
         else Returned result)
      result
    = Returned
        (result
         ++ flat_map
              (fun cat =>
                 filter (fun c => String.eqb (chords.Chord.category c) cat)
                   values)
              cats).
Proof.
  intros Hspec. induction cats as [ | cat cats IH]; intros result.
  - cbn. now rewrite app_nil_r.
  - cbn [for_each flat_map].
    destruct (dict_contains by_cat cat) eqn:Hc.
    + apply dict_contains_get in Hc. destruct Hc as [members Hm].
      rewrite Hm. cbn [bind]. rewrite IH, <- app_assoc.
      rewrite Hspec in Hm.
      destruct (existsb _ values); [ | discriminate].
      do 2 f_equal. congruence.
    + cbn [bind]. rewrite IH.
      apply dict_get_missing in Hc. rewrite Hspec in Hc.
      destruct (existsb (fun c => String.eqb (chords.Chord.category c) cat)
                  values) eqn:Hex; [discriminate | ].
      now rewrite (filter_existsb_false _ _ Hex).
Qed.

(** X20. [get_chord_list] always returns: the chords of category "Open
    Major", then "Open Minor", "7th", "Sus", "Barre" and "Add", each
    group in library order. A chord of any other category is left
    out. *)
Theorem get_chord_list_spec (CHORDS : list (string * chords.Chord.t)) :
  chords.get_chord_list CHORDS
  = Returned
      (flat_map
         (fun cat =>
            filter (fun c => String.eqb (chords.Chord.category c) cat)
              (dict_values CHORDS))
         chords.order)
  /\ forall chord,
       In chord (dict_values CHORDS) ->
       ~ In (chords.Chord.category chord) chords.order ->
       forall listed,
         chords.get_chord_list CHORDS = Returned listed -> ~ In chord listed.
Proof.
  assert (Hlist : chords.get_chord_list CHORDS
                  = Returned
                      (flat_map
                         (fun cat =>
                            filter
                              (fun c =>
                                 String.eqb (chords.Chord.category c) cat)
                              (dict_values CHORDS))
                         chords.order)).
  { unfold chords.get_chord_list.
    destruct (by_category_returns CHORDS) as (by_cat & Hcat & Hspec).
    rewrite Hcat. cbn [bind].
    rewrite (chord_list_loop_spec by_cat (dict_values CHORDS) Hspec).
    reflexivity. }
  split; [exact Hlist | ].
  intros chord _ Hcat listed Hret Hin.
  rewrite Hlist in Hret.
  assert (E : listed
              = flat_map
                  (fun cat =>
                     filter
                       (fun c => String.eqb (chords.Chord.category c) cat)
                       (dict_values CHORDS))
                  chords.order) by congruence.
  rewrite E in Hin. apply in_flat_map in Hin.
  destruct Hin as (cat & Hcat_in & Hfilter).
  apply filter_In in Hfilter. destruct Hfilter as [_ Heq].
  apply String.eqb_eq in Heq. subst cat. contradiction.
Qed.

Lemma get_chord_list_spec_witness :
  chords.get_chord_list
    [("X"%string,
      chords.Chord.mk "X" "Jazz" [Some 1%Z] [Some 1%Z] None)]
  = Returned []
  /\ (forall listed,
         chords.get_chord_list
           [("X"%string,
             chords.Chord.mk "X" "Jazz" [Some 1%Z] [Some 1%Z] None)]
         = Returned listed ->
         ~ In (chords.Chord.mk "X" "Jazz" [Some 1%Z] [Some 1%Z] None) listed).
Proof.
  destruct (get_chord_list_spec
              [("X"%string,
                chords.Chord.mk "X" "Jazz" [Some 1%Z] [Some 1%Z] None)])
    as [Hlist Hout].
  split; [exact Hlist | ].
  apply Hout.
  - simpl. now left.
  - unfold chords.order. simpl.
    intros H. repeat (destruct H as [H | H]; [discriminate | ]). exact H.
Defined.

(** ** The chord library *)

(** X21. Every chord of the library can be played: it is stored under
    its own name, has six frets and six fingers, and [play_chord] on its
    frets (audio available, the default strum delay) submits exactly one
    buffer. *)
Theorem library_chords_play (rng : nat -> nat -> R) (name : string)
    (chord : chords.Chord.t) :
  dict_get chords.CHORDS name = Returned chord ->
  chords.Chord.name chord = name
  /\ length (chords.Chord.frets chord) = 6%nat
  /\ length (chords.Chord.fingers chord) = 6%nat
  /\ exists buffer,
       play_chord true rng (chords.Chord.frets chord) 0.03
       = Returned [(buffer, sample_rate)].
Proof.
  intros Hget. apply dict_get_In in Hget.
  assert (Hall :
            forallb
              (fun kv =>
                 String.eqb (chords.Chord.name (snd kv)) (fst kv)
                 && (length (chords.Chord.frets (snd kv)) =? 6)%nat
                 && (length (chords.Chord.fingers (snd kv)) =? 6)%nat
                 && forallb
                      (fun fret =>
                         match fret with
                         | Some f => (f <=? 84)%Z
                         | None => true
                         end)
                      (chords.Chord.frets (snd kv))
                 && existsb
                      (fun sf =>
                         match snd sf with
                         | Some _ => true
                         | None => false
                         end)
                      (combine strings (chords.Chord.frets (snd kv))))
              chords.CHORDS = true) by (vm_compute; reflexivity).
  rewrite forallb_forall in Hall. specialize (Hall _ Hget).
  cbn [fst snd] in Hall.
  repeat (apply andb_prop in Hall; destruct Hall as [Hall ?]).
  split; [now apply String.eqb_eq | ].
  split; [now apply Nat.eqb_eq | ].
  split; [now apply Nat.eqb_eq | ].
  apply play_chord_submits.
  - lra.
  - intros fret Hin.
    match goal with
    | H : forallb _ (chords.Chord.frets chord) = true |- _ =>
        rewrite forallb_forall in H; specialize (H _ Hin); cbn in H
    end.
    lia.
  - match goal with
    | H : existsb _ _ = true |- _ =>
        apply existsb_exists in H; destruct H as ([s [fret | ]] & Hin & Hs)
    end; [ | discriminate].
    now exists s, fret.
Qed.

Lemma library_chords_play_witness :
  chords.Chord.name
    (chords.Chord.mk "Am" "Open Minor"
       [None; Some 0; Some 2; Some 2; Some 1; Some 0]%Z
       [None; None; Some 2; Some 3; Some 1; None]%Z None)
  = "Am"%string
  /\ exists buffer,
       play_chord true (fun _ _ => 0)
         [None; Some 0; Some 2; Some 2; Some 1; Some 0]%Z 0.03
       = Returned [(buffer, sample_rate)].
Proof.
  destruct (library_chords_play (fun _ _ => 0) "Am"
              (chords.Chord.mk "Am" "Open Minor"
                 [None; Some 0; Some 2; Some 2; Some 1; Some 0]%Z
                 [None; None; Some 2; Some 3; Some 1; None]%Z None))
    as (Hname & _ & _ & Hplay).
  - reflexivity.
  - split; [exact Hname | exact Hplay].
Defined.

(** ** The tab *)

Lemma tuple_getitem_item {A : Type} (xs : list A) (i : nat) (a : A) :
  nth_error xs i = Some a -> tuple_getitem xs (Z.of_nat i) = Item a.
Proof.
  intros Hnth. unfold tuple_getitem.
  assert (Hlt : (i < length xs)%nat) by (apply nth_error_Some; congruence).
  destruct (Z.ltb_spec (Z.of_nat i) 0) as [Hneg | _]; [lia | ].
  destruct (Z.ltb_spec (Z.of_nat i) 0) as [Hneg | _]; [lia | ].
  destruct (Z.leb_spec (Z.of_nat (length xs)) (Z.of_nat i)) as [Hge | _];
    [lia | ].
  cbn [orb]. now rewrite Nat2Z.id, Hnth.
Qed.

Lemma tuple_getitem_out_of_range {A : Type} (xs : list A) (i : Z) :
  (Z.of_nat (length xs) <= i)%Z -> tuple_getitem xs i = @IndexError A.
Proof.
  intros Hge. unfold tuple_getitem.
  destruct (Z.ltb_spec i 0) as [Hneg | _]; [lia | ].
  destruct (Z.ltb_spec i 0) as [Hneg | _]; [lia | ].
  destruct (Z.leb_spec (Z.of_nat (length xs)) i) as [_ | Hlt]; [ | lia].
  reflexivity.
Qed.

(** X22. The tab needs six frets. With fewer, [tab_notation] raises
    [IndexError] (it starts by reading the sixth); with six or more it
    returns six lines, for the strings e, B, G, D, A, E in that order,
    each showing the fret of its string, that is the first six frets in
    reverse, a muted string as [x]. *)
Theorem tab_notation_spec (self : chords.Chord.t) :
  ((length (chords.Chord.frets self) < 6)%nat ->
   chords.Chord.tab_notation self = IndexError)
  /\ ((6 <= length (chords.Chord.frets self))%nat ->
      chords.Chord.tab_notation self
      = Item
          (map (fun '(s, fret) => chords.Chord.tab_line s fret)
             (combine ["e"; "B"; "G"; "D"; "A"; "E"]%string
                (rev (firstn 6 (chords.Chord.frets self)))))).
Proof.
  unfold chords.Chord.tab_notation, Py.enumerate.
  cbn [length seq combine chords.Chord.tab_loop].
  split.
  - intros Hlen. change (5 - Z.of_nat 0)%Z with 5%Z.
    rewrite tuple_getitem_out_of_range by lia. reflexivity.
  - intros Hlen.
    destruct (chords.Chord.frets self)
      as [ | f0 [ | f1 [ | f2 [ | f3 [ | f4 [ | f5 rest]]]]]];
      simpl in Hlen; try lia.
    change (5 - Z.of_nat 0)%Z with (Z.of_nat 5).
    change (5 - Z.of_nat 1)%Z with (Z.of_nat 4).
    change (5 - Z.of_nat 2)%Z with (Z.of_nat 3).
    change (5 - Z.of_nat 3)%Z with (Z.of_nat 2).
    change (5 - Z.of_nat 4)%Z with (Z.of_nat 1).
    change (5 - Z.of_nat 5)%Z with (Z.of_nat 0).
    rewrite (tuple_getitem_item _ 5 f5) by reflexivity.
    rewrite (tuple_getitem_item _ 4 f4) by reflexivity.
    rewrite (tuple_getitem_item _ 3 f3) by reflexivity.
    rewrite (tuple_getitem_item _ 2 f2) by reflexivity.
    rewrite (tuple_getitem_item _ 1 f1) by reflexivity.
    rewrite (tuple_getitem_item _ 0 f0) by reflexivity.
    reflexivity.
Qed.

Lemma tab_notation_spec_witness :
  chords.Chord.tab_notation
    (chords.Chord.mk "C" "Open Major"
       [None; Some 3; Some 2; Some 0; Some 1; Some 0]%Z
       [None; Some 3; Some 2; None; Some 1; None]%Z None)
  = Item
      (map (fun '(s, fret) => chords.Chord.tab_line s fret)
         (combine ["e"; "B"; "G"; "D"; "A"; "E"]%string
            (rev
               (firstn 6
                  (chords.Chord.frets
                     (chords.Chord.mk "C" "Open Major"
                        [None; Some 3; Some 2; Some 0; Some 1; Some 0]%Z
                        [None; Some 3; Some 2; None; Some 1; None]%Z
                        None)))))).
Proof.
  apply (proj2
           (tab_notation_spec
              (chords.Chord.mk "C" "Open Major"
                 [None; Some 3; Some 2; Some 0; Some 1; Some 0]%Z
                 [None; Some 3; Some 2; None; Some 1; None]%Z None))).
  simpl. lia.
Defined.

(** ** The chord diagram *)

Lemma nth_error_combine {A B : Type} (xs : list A) (ys : list B) (i : nat)
    (x : A) (y : B) :
  nth_error (combine xs ys) i = Some (x, y)
  <-> nth_error xs i = Some x /\ nth_error ys i = Some y.
Proof.
  revert ys i. induction xs as [ | x' xs IH]; intros [ | y' ys] [ | i];
    simpl; try (split; [discriminate | intros [H1 H2]; discriminate]).
  - split; [intros H; split; congruence | intros [H1 H2]; congruence].
  - apply IH.
Qed.

Lemma circle_of_finger_visible (finger : Z) :
  chords.circles_get chords.FINGER_CIRCLES (Some finger) "●" <> " "%string.
Proof.
  unfold chords.FINGER_CIRCLES. cbn [chords.circles_get chords.option_Z_eqb].
  destruct (finger =? 1)%Z; [discriminate | ].
  destruct (finger =? 2)%Z; [discriminate | ].
  destruct (finger =? 3)%Z; [discriminate | ].
  destruct (finger =? 4)%Z; discriminate.
Qed.

Lemma fret_is_spec (fret : option Z) (fret_num : Z) :
  chords.fret_is fret fret_num = true <-> fret = Some fret_num.
Proof.
  destruct fret as [f | ]; simpl.
  - rewrite Z.eqb_eq. split; congruence.
  - split; discriminate.
Qed.

Lemma nth_error_map_combine {A B C : Type} (g : A * B -> C) (xs : list A)
    (ys : list B) (i : nat) (c : C) :
  nth_error (map g (combine xs ys)) i = Some c ->
  exists x y,
    nth_error xs i = Some x /\ nth_error ys i = Some y /\ c = g (x, y).
Proof.
  rewrite nth_error_map.
  destruct (nth_error (combine xs ys) i) as [[x y] | ] eqn:Hpair;
    cbn [option_map]; [ | discriminate].
  apply nth_error_combine in Hpair. destruct Hpair as [Hx Hy].
  intros H. exists x, y. repeat split; try assumption. congruence.
Qed.

Lemma plain_mark_visible (fret finger : option Z) (fret_num : Z) :
  (if chords.fret_is fret fret_num
   then chords.circles_get chords.FINGER_CIRCLES finger "●"
   else " "%string) <> " "%string
  <-> fret = Some fret_num /\ finger <> None.
Proof.
  destruct (chords.fret_is fret fret_num) eqn:Hf.
  - apply fret_is_spec in Hf. destruct finger as [k | ].
    + split; [intros _; split; [exact Hf | discriminate] | ].
      intros _. apply circle_of_finger_visible.
    + split; [intros H; now contradiction H | ].
      intros [_ H]. now contradiction H.
  - split; [intros H; now contradiction H | ].
    intros [Hfret _]. apply fret_is_spec in Hfret. congruence.
Qed.

Lemma barre_mark_visible (fret finger : option Z) (fret_num : Z) :
  (if chords.fret_is fret fret_num && chords.option_Z_eqb finger (Some 1%Z)
   then "━"%string
   else if chords.fret_is fret fret_num
   then chords.circles_get chords.FINGER_CIRCLES finger "●"
   else if match fret with Some _ => true | None => false end
           && (fret_num <=? fret_num)%Z
   then " "%string
   else " "%string) <> " "%string
  <-> fret = Some fret_num /\ finger <> None.
Proof.
  destruct (chords.fret_is fret fret_num) eqn:Hf.
  - apply fret_is_spec in Hf. destruct finger as [k | ]; cbn [andb].
    + split; [intros _; split; [exact Hf | discriminate] | ].
      intros _. destruct (chords.option_Z_eqb (Some k) (Some 1%Z));
        [discriminate | apply circle_of_finger_visible].
    + cbn. split; [intros H; now contradiction H | ].
      intros [_ H]. now contradiction H.
  - cbn [andb]. split.
    + intros H. exfalso. apply H.
      destruct (match fret with Some _ => true | None => false end
                && (fret_num <=? fret_num)%Z); reflexivity.
    + intros [Hfret _]. apply fret_is_spec in Hfret. congruence.
Qed.

(** X23. A mark on a fret row of the diagram is never spurious and
    never missing: each row has one position per (fret, finger) pair of
    the chord, and the position of a string is other than a blank
    exactly when the string is fretted at the fret of that row and a
    finger is given for it. *)
Theorem mark_visible_iff (chord : chords.Chord.t) (fret_num : Z) :
  length (chords.positions chord fret_num)
  = Nat.min (length (chords.Chord.frets chord))
      (length (chords.Chord.fingers chord))
  /\ forall i mark,
       nth_error (chords.positions chord fret_num) i = Some mark ->
       exists fret finger,
         nth_error (chords.Chord.frets chord) i = Some fret
         /\ nth_error (chords.Chord.fingers chord) i = Some finger
         /\ (mark <> " "%string
             <-> fret = Some fret_num /\ finger <> None).
Proof.
  unfold chords.positions. split.
  - destruct (chords.Chord.barre chord) as [barre | ];
      [destruct (negb (barre =? 0)%Z && (fret_num =? barre)%Z) | ];
      now rewrite length_map, length_combine.
  - intros i mark Hnth.
    destruct (chords.Chord.barre chord) as [barre | ].
    + destruct (negb (barre =? 0)%Z && (fret_num =? barre)%Z) eqn:Hb.
      * apply andb_prop in Hb. destruct Hb as [_ Hb].
        apply Z.eqb_eq in Hb. subst barre.
        apply nth_error_map_combine in Hnth.
        destruct Hnth as (fret & finger & Hfret & Hfinger & ->).
        exists fret, finger. split; [exact Hfret | ].
        split; [exact Hfinger | apply barre_mark_visible].
      * apply nth_error_map_combine in Hnth.
        destruct Hnth as (fret & finger & Hfret & Hfinger & ->).
        exists fret, finger. split; [exact Hfret | ].
        split; [exact Hfinger | apply plain_mark_visible].
    + apply nth_error_map_combine in Hnth.
      destruct Hnth as (fret & finger & Hfret & Hfinger & ->).
      exists fret, finger. split; [exact Hfret | ].
      split; [exact Hfinger | apply plain_mark_visible].
Qed.

Lemma mark_visible_iff_witness :
  exists fret finger,
    nth_error [Some 1; Some 3; Some 3; Some 2; Some 1; Some 1]%Z 0
    = Some fret
    /\ nth_error [Some 1; Some 3; Some 4; Some 2; Some 1; Some 1]%Z 0
       = Some finger
    /\ ("━"%string <> " "%string
        <-> fret = Some 1%Z /\ finger <> None).
Proof.
  apply (proj2
           (mark_visible_iff
              (chords.Chord.mk "F" "Barre"
                 [Some 1; Some 3; Some 3; Some 2; Some 1; Some 1]%Z
                 [Some 1; Some 3; Some 4; Some 2; Some 1; Some 1]%Z
                 (Some 1%Z))
              1%Z)
           0%nat "━"%string).
  reflexivity.
Defined.

Lemma fold_min_spec (l : list Z) :
  forall a,
    In (fold_left Z.min l a) (a :: l)
    /\ forall x, In x (a :: l) -> (fold_left Z.min l a <= x)%Z.
Proof.
  induction l as [ | y l IH]; intros a.
  - split; [now left | ]. intros x [-> | []]. simpl. lia.
  - cbn [fold_left]. destruct (IH (Z.min a y)) as [Hin Hle]. split.
    + destruct Hin as [Heq | Hin]; [ | now right; right].
      rewrite <- Heq. destruct (Z.min_spec a y) as [[_ ->] | [_ ->]];
        [now left | now right; left].
    + intros x Hx.
      assert (Hm : (fold_left Z.min l (Z.min a y) <= Z.min a y)%Z)
        by (apply Hle; now left).
      destruct Hx as [-> | [-> | Hx]]; [lia | lia | ].
      apply Hle. now right.
Qed.

Lemma fold_max_spec (l : list Z) :
  forall a,
    In (fold_left Z.max l a) (a :: l)
    /\ forall x, In x (a :: l) -> (x <= fold_left Z.max l a)%Z.
Proof.
  induction l as [ | y l IH]; intros a.
  - split; [now left | ]. intros x [-> | []]. simpl. lia.
  - cbn [fold_left]. destruct (IH (Z.max a y)) as [Hin Hle]. split.
    + destruct Hin as [Heq | Hin]; [ | now right; right].
      rewrite <- Heq. destruct (Z.max_spec a y) as [[_ ->] | [_ ->]];
        [now right; left | now left].
    + intros x Hx.
      assert (Hm : (Z.max a y <= fold_left Z.max l (Z.max a y))%Z)
        by (apply Hle; now left).
      destruct Hx as [-> | [-> | Hx]]; [lia | lia | ].
      apply Hle. now right.
Qed.

Lemma non_zero_frets_spec (chord : chords.Chord.t) (f : Z) :
  In f (chords.non_zero_frets chord)
  <-> In (Some f) (chords.Chord.frets chord) /\ (0 < f)%Z.
Proof.
  unfold chords.non_zero_frets. rewrite in_flat_map. split.
  - intros ([g | ] & Hin & Hf); [ | contradiction].
    destruct (negb (g =? 0)%Z && (0 <? g)%Z) eqn:Hg; [ | contradiction].
    destruct Hf as [<- | []].
    apply andb_prop in Hg. destruct Hg as [_ Hg]. apply Z.ltb_lt in Hg.
    now split.
  - intros [Hin Hpos]. exists (Some f). split; [exact Hin | ].
    replace (negb (f =? 0)%Z && (0 <? f)%Z) with true; [now left | ].
    symmetry. apply andb_true_intro. split.
    + apply negb_true_iff, Z.eqb_neq. lia.
    + now apply Z.ltb_lt.
Qed.

(** X24. The window of the diagram. The first drawn fret is at least 1;
    and when the fretted notes of a chord (frets above 0) lie within
    four consecutive frets, each of them falls on one of the four rows
    drawn, [start_fret] to [start_fret + 3]. *)
Theorem start_fret_window (chord : chords.Chord.t) :
  (1 <= chords.start_fret chord)%Z
  /\ ((forall g h,
          In (Some g) (chords.Chord.frets chord) ->
          In (Some h) (chords.Chord.frets chord) ->
          (0 < g)%Z -> (0 < h)%Z -> (h - g <= 3)%Z) ->
      forall f,
        In (Some f) (chords.Chord.frets chord) -> (0 < f)%Z ->
        (chords.start_fret chord <= f <= chords.start_fret chord + 3)%Z).
Proof.
  unfold chords.start_fret.
  destruct (chords.non_zero_frets chord) as [ | f0 fs] eqn:Hnz.
  - split; [lia | ]. intros _ f Hin Hpos.
    assert (Hf : In f (chords.non_zero_frets chord))
      by (apply non_zero_frets_spec; now split).
    rewrite Hnz in Hf. contradiction.
  - destruct (fold_min_spec fs f0) as [Hmin_in Hmin].
    destruct (fold_max_spec fs f0) as [Hmax_in Hmax].
    rewrite <- Hnz in Hmin_in, Hmin, Hmax_in, Hmax.
    apply non_zero_frets_spec in Hmin_in, Hmax_in.
    destruct Hmin_in as [Hmin_fret Hmin_pos].
    destruct Hmax_in as [Hmax_fret Hmax_pos].
    destruct (Z.leb_spec (fold_left Z.max fs f0) 4) as [Hle | Hgt].
    + split; [lia | ]. intros _ f Hin Hpos.
      assert (Hf : In f (chords.non_zero_frets chord))
        by (apply non_zero_frets_spec; now split).
      specialize (Hmax f Hf). lia.
    + split; [lia | ]. intros Hspan f Hin Hpos.
      assert (Hf : In f (chords.non_zero_frets chord))
        by (apply non_zero_frets_spec; now split).
      specialize (Hmax f Hf). specialize (Hmin f Hf).
      specialize (Hspan _ _ Hmin_fret Hmax_fret Hmin_pos Hmax_pos). lia.
Qed.

Lemma start_fret_window_witness :
  (chords.start_fret
     (chords.Chord.mk "A5" "Barre"
        [Some 5; Some 7; Some 7; Some 6; Some 5; Some 5]%Z
        [Some 1; Some 3; Some 4; Some 2; Some 1; Some 1]%Z (Some 5%Z))
   <= 7
   <= chords.start_fret
        (chords.Chord.mk "A5" "Barre"
           [Some 5; Some 7; Some 7; Some 6; Some 5; Some 5]%Z
           [Some 1; Some 3; Some 4; Some 2; Some 1; Some 1]%Z (Some 5%Z))
      + 3)%Z.
Proof.
  apply (proj2
           (start_fret_window
              (chords.Chord.mk "A5" "Barre"
                 [Some 5; Some 7; Some 7; Some 6; Some 5; Some 5]%Z
                 [Some 1; Some 3; Some 4; Some 2; Some 1; Some 1]%Z
                 (Some 5%Z)))).
  - cbn [chords.Chord.frets]. intros g h Hg Hh _ _.
    simpl in Hg, Hh.
    repeat (destruct Hg as [Hg | Hg]; [injection Hg as <- | ]);
      try contradiction;
      repeat (destruct Hh as [Hh | Hh]; [injection Hh as <- | ]);
      try contradiction; lia.
  - simpl. tauto.
  - lia.
Defined.

(** X25. Every chord of the library is drawn completely: each of its
    fretted strings (fret above 0) falls on one of the four rows of the
    diagram and has a mark there. *)
Theorem library_diagrams_complete (name : string) (chord : chords.Chord.t)
    (i : nat) (f : Z) :
  dict_get chords.CHORDS name = Returned chord ->
  nth_error (chords.Chord.frets chord) i = Some (Some f) ->
  (0 < f)%Z ->
  (chords.start_fret chord <= f <= chords.start_fret chord + 3)%Z
  /\ exists mark,
       nth_error (chords.positions chord f) i = Some mark
       /\ mark <> " "%string.
Proof.
  intros Hget Hnth Hpos. apply dict_get_In in Hget.
  assert (Hall :
            forallb
              (fun kv =>
                 forallb
                   (fun '(j, fret) =>
                      match fret with
                      | Some g =>
                          if (0 <? g)%Z then
                            (chords.start_fret (snd kv) <=? g)%Z
                            && (g <=? chords.start_fret (snd kv) + 3)%Z
                            && match
                                 nth_error (chords.positions (snd kv) g) j
                               with
                               | Some mark => negb (String.eqb mark " ")
                               | None => false
                               end
                          else true
                      | None => true
                      end)
                   (Py.enumerate (chords.Chord.frets (snd kv))))
              chords.CHORDS = true) by (vm_compute; reflexivity).
  rewrite forallb_forall in Hall. specialize (Hall _ Hget).
  cbn [snd] in Hall. rewrite forallb_forall in Hall.
  specialize (Hall _ (enumerate_nth_error _ _ _ Hnth)). cbn beta iota in Hall.
  destruct (Z.ltb_spec 0 f) as [_ | Hle]; [ | lia].
  apply andb_prop in Hall. destruct Hall as [Hwin Hmark].
  apply andb_prop in Hwin. destruct Hwin as [Hlo Hhi].
  apply Z.leb_le in Hlo, Hhi. split; [lia | ].
  destruct (nth_error (chords.positions chord f) i) as [mark | ];
    [ | discriminate].
  exists mark. split; [reflexivity | ].
  apply negb_true_iff in Hmark. now apply String.eqb_neq.
Qed.

Lemma library_diagrams_complete_witness :
  (chords.start_fret
     (chords.Chord.mk "Bm" "Barre"
        [None; Some 2; Some 4; Some 4; Some 3; Some 2]%Z
        [None; Some 1; Some 3; Some 4; Some 2; Some 1]%Z (Some 2%Z))
   <= 4
   <= chords.start_fret
        (chords.Chord.mk "Bm" "Barre"
           [None; Some 2; Some 4; Some 4; Some 3; Some 2]%Z
           [None; Some 1; Some 3; Some 4; Some 2; Some 1]%Z (Some 2%Z))
      + 3)%Z
  /\ exists mark,
       nth_error
         (chords.positions
            (chords.Chord.mk "Bm" "Barre"
               [None; Some 2; Some 4; Some 4; Some 3; Some 2]%Z
               [None; Some 1; Some 3; Some 4; Some 2; Some 1]%Z (Some 2%Z))
            4)
         2
       = Some mark
       /\ mark <> " "%string.
Proof.
  apply (library_diagrams_complete "Bm"
           (chords.Chord.mk "Bm" "Barre"
              [None; Some 2; Some 4; Some 4; Some 3; Some 2]%Z
              [None; Some 1; Some 3; Some 4; Some 2; Some 1]%Z (Some 2%Z))
           2 4).
  - reflexivity.
  - reflexivity.
  - lia.
Defined.

(** ** Progressions and songs *)

(** X26. Every chord named by a progression or a song is in the chord
    library, stored under that name: looking a name of theirs up in
    [CHORDS] never fails. *)
Theorem sequences_resolve (name : string) :
  ((exists key progression,
       In (key, progression) data.PROGRESSIONS
       /\ In name (data.Progression.chords progression))
   \/ (exists song,
          In song data.SONGS /\ In name (data.Song.chords song))) ->
  dict_contains chords.CHORDS name = true
  /\ exists chord,
       dict_get chords.CHORDS name = Returned chord
       /\ chords.Chord.name chord = name.
Proof.
  intros Hused.
  assert (Hin : In name
                  (flat_map
                     (fun kv => data.Progression.chords (snd kv))
                     data.PROGRESSIONS
                   ++ flat_map data.Song.chords data.SONGS)).
  { apply in_or_app. destruct Hused as [(key & p & Hp & Hn) | (s & Hs & Hn)].
    - left. apply in_flat_map. now exists (key, p).
    - right. apply in_flat_map. now exists s. }
  assert (Hall :
            forallb
              (fun n =>
                 match dict_get chords.CHORDS n with
                 | Returned chord => String.eqb (chords.Chord.name chord) n
                 | Raised _ => false
                 end)
              (flat_map
                 (fun kv => data.Progression.chords (snd kv))
                 data.PROGRESSIONS
               ++ flat_map data.Song.chords data.SONGS) = true)
    by (vm_compute; reflexivity).
  rewrite forallb_forall in Hall. specialize (Hall _ Hin).
  destruct (dict_get chords.CHORDS name) as [chord | e] eqn:Hget;
    [ | discriminate].
  split.
  - apply dict_contains_get. now exists chord.
  - exists chord. split; [reflexivity | now apply String.eqb_eq].
Qed.

Lemma sequences_resolve_witness :
  dict_contains chords.CHORDS "F#m" = true
  /\ exists chord,
       dict_get chords.CHORDS "F#m" = Returned chord
       /\ chords.Chord.name chord = "F#m"%string.
Proof.
  apply sequences_resolve. right.
  exists (data.Song.mk "High and Dry" "Radiohead" ["E"; "A"; "F#m"]%string).
  split; [ | simpl; tauto].
  unfold data.SONGS.
  repeat (first [left; reflexivity | right]).
Defined.

(** * Further properties of the frequency model and the strum *)







